(** * cindex: the index build orchestrator of codesearch

    A shallow embedding of [cmd/cindex/cindex.go].  The program is one Go
    function, [main], that talks to the operating system, to the
    [index] and [regexp] packages and to [path/filepath].  Every call that
    leaves the function is recorded as an [Event]; the answers of the
    outside world come from a [World] of oracles.  A run is the list of
    events it performed together with the way it ended (normal return,
    panic, or [os.Exit]). *)

From Stdlib Require Import List String Ascii ZArith Bool Lia Sorted Permutation.
Import ListNotations.

Local Open Scope string_scope.
Local Open Scope list_scope.

(** ** Go values *)

(** A Go [error]: [None] is [nil]. *)
Definition error := option string.

Definition isErr (e : error) : bool :=
  match e with Some _ => true | None => false end.

(** [os.FileMode] is a [uint32]; the type bits are the ones of package [os]
    ([ModeDir = 1 << 31], ...). *)
Definition ModeDir        : Z := Z.shiftl 1 31.
Definition ModeSymlink    : Z := Z.shiftl 1 27.
Definition ModeDevice     : Z := Z.shiftl 1 26.
Definition ModeNamedPipe  : Z := Z.shiftl 1 25.
Definition ModeSocket     : Z := Z.shiftl 1 24.
Definition ModeCharDevice : Z := Z.shiftl 1 21.
Definition ModeIrregular  : Z := Z.shiftl 1 19.

Definition ModeType : Z :=
  Z.lor ModeDir (Z.lor ModeSymlink (Z.lor ModeNamedPipe (Z.lor ModeSocket
    (Z.lor ModeDevice (Z.lor ModeCharDevice ModeIrregular))))).

(** An [os.FileInfo] as far as the program looks at it. *)
Record FileInfo := mkFileInfo { Mode : Z }.

Definition IsDir (fi : FileInfo) : bool :=
  negb (Z.land (Mode fi) ModeDir =? 0)%Z.

(** The values the walk callback returns: [nil] or [filepath.SkipDir]. *)
Inductive WalkErr := WalkNil | SkipDir.

(** A compiled pattern of package [regexp]: [MatchString s beginText endText]
    returns an [int]. *)
Record Regexp := mkRegexp { MatchString : string -> bool -> bool -> Z }.

(** The directory tree [filepath.Walk] sees below a root: an entry whose
    [Lstat] succeeded carries its info, the result of reading it as a
    directory and its children in lexical order; [NoStat] is an entry whose
    [Lstat] failed. *)
#[warnings="-register-all"] Inductive Node :=
| Stat (name : string) (info : FileInfo) (readdir : error) (children : list Node)
| NoStat (name : string) (err : string).

Definition nodeName (n : Node) : string :=
  match n with Stat name _ _ _ => name | NoStat name _ => name end.

(** ** Events and runs *)

Inductive Event :=
| EvIndexOpen (file : string) (ok : bool)
| EvPrint (s : string)
| EvLog (s : string)
| EvOsCreate (name : string) (err : error)
| EvStartCPUProfile
| EvStopCPUProfile
| EvFileClose (name : string)
| EvOsRemove (name : string) (err : error)
| EvAbs (arg : string) (err : error)
| EvOsStat (name : string) (err : error)
| EvCompile (pattern : string) (err : error)
| EvIndexCreate (file : string) (ok : bool)
| EvAddPaths (paths : list string)
| EvWalk (root : string)
| EvAddFile (path : string)
| EvFlush (file : string) (ok : bool)
| EvMerge (dst src1 src2 : string) (ok : bool)
| EvOsRename (oldpath newpath : string) (err : error).

(** How a piece of the program ends: it returns a value, it panics (deferred
    calls still run, the process then exits with status 2), or the process
    exits on the spot ([os.Exit], reached through [log.Fatal]). *)
Inductive Result (A : Type) :=
| Ok (a : A)
| Panic (msg : string)
| Exit (code : Z).
Arguments Ok {A} a.
Arguments Panic {A} msg.
Arguments Exit {A} code.

Definition M (A : Type) : Type := list Event * Result A.

Definition ret {A} (a : A) : M A := ([], Ok a).

Definition bind {A B} (m : M A) (k : A -> M B) : M B :=
  match m with
  | (t, Ok a) => let (t', r) := k a in (t ++ t', r)
  | (t, Panic msg) => (t, Panic msg)
  | (t, Exit c) => (t, Exit c)
  end.

Declare Scope go_scope.
Delimit Scope go_scope with go.
Notation "x <- m ;; k" := (bind m (fun x => k))
  (at level 100, m at next level, right associativity) : go_scope.
Notation "m ;;; k" := (bind m (fun _ => k))
  (at level 100, right associativity) : go_scope.
Local Open Scope go_scope.

Definition emit (e : Event) : M unit := ([e], Ok tt).
Definition panic {A} (msg : string) : M A := ([], Panic msg).
Definition os_Exit {A} (code : Z) : M A := ([], Exit code).
Definition log_Printf (s : string) : M unit := emit (EvLog s).

(** [log.Fatal]: print, then [os.Exit(1)]. *)
Definition log_Fatal {A} (s : string) : M A := log_Printf s ;;; os_Exit 1.

(** [defer]: the deferred calls run when the function returns and when it
    panics, not when the process exits. *)
Definition defer {A} (deferred : list Event) (body : M A) : M A :=
  match body with
  | (t, Exit c) => (t, Exit c)
  | (t, r) => (t ++ deferred, r)
  end.

Definition trace {A} (m : M A) : list Event := fst m.
Definition outcome {A} (m : M A) : Result A := snd m.

(** The status the process ends with. *)
Definition exitCode {A} (r : Result A) : Z :=
  match r with Ok _ => 0 | Panic _ => 2 | Exit c => c end.

(** ** The outside world *)

Record World := mkWorld {
  (** [index.File()]: the master index path. *)
  index_File : string;
  (** [index.Open(file).Paths()]; [None]: the library aborts the process. *)
  index_Open : string -> option (list string);
  (** [index.Create], [ix.Flush], [index.Merge]: [false] when the library
      hits an I/O error, which it reports through [log.Fatal].
      [ix.AddPaths] and [ix.AddFile] are taken to return: [AddFile] logs
      and skips a file it cannot read. *)
  index_Create : string -> bool;
  index_Flush : string -> bool;
  index_Merge : string -> string -> string -> bool;
  os_Create : string -> error;
  os_Remove : string -> error;
  os_Rename : string -> string -> error;
  os_Stat : string -> error;
  filepath_Abs : string -> string + string;
  regexp_Compile : string -> Regexp + string;
  (** what [filepath.Walk] finds at a root *)
  fs_tree : string -> Node
}.

(** ** Strings *)

Definition nl : string := String (ascii_of_nat 10) "".

(** [os.IsPathSeparator] on Unix. *)
Definition IsPathSeparator (c : ascii) : bool := (c =? "/")%char.

(** The loop of [filepath.Split]: [n] is [i+1]; the result is [i+1] when the
    loop stops. *)
Fixpoint scanBack (path : string) (n : nat) : nat :=
  match n with
  | O => O
  | S i =>
      match String.get i path with
      | Some c => if IsPathSeparator c then S i else scanBack path i
      | None => scanBack path i
      end
  end.

(** [filepath.Split] (Unix: the volume name is empty). *)
Definition Split (path : string) : string * string :=
  let k := scanBack path (String.length path) in
  (substring 0 k path, substring k (String.length path - k) path).

(** [filepath.Join(path, name)] for a cleaned [path] and a directory entry
    [name]. *)
Definition endsWithSep (path : string) : bool :=
  match String.get (String.length path - 1) path with
  | Some c => IsPathSeparator c
  | None => false
  end.

Definition Join (path name : string) : string :=
  if endsWithSep path then (path ++ name)%string
  else (path ++ "/" ++ name)%string.

(** [sort.Strings]: ascending for Go's [<] on strings, which compares bytes.
    The order is total and antisymmetric, so the sorted list is unique and
    an insertion sort computes it. *)
Fixpoint insertString (x : string) (l : list string) : list string :=
  match l with
  | [] => [x]
  | y :: t => if String.leb x y then x :: y :: t else y :: insertString x t
  end.

Fixpoint sort_Strings (l : list string) : list string :=
  match l with
  | [] => []
  | x :: t => insertString x (sort_Strings t)
  end.

(** ** The program *)

(** The built-in patterns [main] puts in front of the [-exclude] flags. *)
Definition builtinExcludes : list string :=
  [ "/.git$"; "/node_modules"; "/bazel-(bin|out|testlogs)"; "/venv";
    "/.csearchindex"; ".*/go/pkg/mod" ].

(** The command line after [flag.Parse]. *)
Record Flags := mkFlags {
  listFlag : bool;
  resetFlag : bool;
  verboseFlag : bool;
  cpuProfile : string;
  excludeFlag : list string;
  args : list string
}.

Definition excludePatterns (f : Flags) : list string :=
  builtinExcludes ++ excludeFlag f.

(** The writer handle [index.Create] returns. *)
Record IndexWriter := mkIndexWriter { ix_file : string; Verbose : bool }.

Section Program.

Variable w : World.

(** *** Calls into the [index] package *)

Definition indexOpenPaths (file : string) : M (list string) :=
  match index_Open w file with
  | Some paths => emit (EvIndexOpen file true) ;;; ret paths
  | None => emit (EvIndexOpen file false) ;;; os_Exit 1
  end.

Definition indexCreate (file : string) : M IndexWriter :=
  if index_Create w file
  then emit (EvIndexCreate file true) ;;; ret (mkIndexWriter file false)
  else emit (EvIndexCreate file false) ;;; os_Exit 1.

Definition indexFlush (ix : IndexWriter) : M unit :=
  if index_Flush w (ix_file ix)
  then emit (EvFlush (ix_file ix) true)
  else emit (EvFlush (ix_file ix) false) ;;; os_Exit 1.

Definition indexMerge (dst src1 src2 : string) : M unit :=
  if index_Merge w dst src1 src2
  then emit (EvMerge dst src1 src2 true)
  else emit (EvMerge dst src1 src2 false) ;;; os_Exit 1.

(** *** Lines 93-99: [-list] *)

Fixpoint printPaths (paths : list string) : M unit :=
  match paths with
  | [] => ret tt
  | arg :: rest => emit (EvPrint (arg ++ nl)) ;;; printPaths rest
  end.

Definition listPaths : M unit :=
  paths <- indexOpenPaths (index_File w) ;;
  printPaths paths.

(** *** Lines 101-109: CPU profiling around the rest of [main] *)

Definition profiled (cpuProfile : string) (rest : M unit) : M unit :=
  if (cpuProfile =? "")%string then rest
  else
    match os_Create w cpuProfile with
    | Some err => emit (EvOsCreate cpuProfile (Some err)) ;;; log_Fatal err
    | None =>
        emit (EvOsCreate cpuProfile None) ;;;
        emit EvStartCPUProfile ;;;
        defer [EvStopCPUProfile; EvFileClose cpuProfile] rest
    end.

(** *** Lines 122-137: the path resolver *)

Fixpoint absArgs (args : list string) : M (list string) :=
  match args with
  | [] => ret []
  | arg :: rest =>
      a <- match filepath_Abs w arg with
           | inl a => emit (EvAbs arg None) ;;; ret a
           | inr err =>
               emit (EvAbs arg (Some err)) ;;;
               log_Printf (arg ++ ": " ++ err) ;;;
               ret ""
           end ;;
      rest' <- absArgs rest ;;
      ret (a :: rest')
  end.

(** [for len(args) > 0 && args[0] == "" { args = args[1:] }] *)
Fixpoint dropEmpty (args : list string) : list string :=
  match args with
  | a :: rest => if (a =? "")%string then dropEmpty rest else args
  | [] => []
  end.

Definition resolveArgs (args : list string) : M (list string) :=
  args' <- absArgs args ;;
  ret (dropEmpty (sort_Strings args')).

(** *** Lines 149-157: pattern compilation *)

Fixpoint compilePatterns (patterns : list string) : M (list Regexp) :=
  match patterns with
  | [] => ret []
  | pattern :: rest =>
      match regexp_Compile w pattern with
      | inl r =>
          emit (EvCompile pattern None) ;;;
          rs <- compilePatterns rest ;;
          ret (r :: rs)
      | inr err => emit (EvCompile pattern (Some err)) ;;; panic err
      end
  end.

End Program.

(** *** Lines 159-169: [anyRegexpMatches] *)

Fixpoint anyRegexpMatches (excludeRegexp : list Regexp) (p : string) : bool :=
  match excludeRegexp with
  | [] => false
  | r :: rest =>
      if (MatchString r p true true >? 0)%Z then true
      else anyRegexpMatches rest p
  end.

(** *** Lines 176-202: the walk callback *)

(** [info.IsDir()] on an interface value that may be [nil]. *)
Definition info_IsDir (info : option FileInfo) : M bool :=
  match info with
  | Some fi => ret (IsDir fi)
  | None => panic "runtime error: invalid memory address or nil pointer dereference"
  end.

(** [elem[0] == '.' || elem[0] == '#' || elem[0] == '~' ||
     elem[len(elem)-1] == '~'] for a non-empty [elem]. *)
Definition byteIs (o : option ascii) (c : ascii) : bool :=
  match o with Some b => (b =? c)%char | None => false end.

Definition hiddenElem (elem : string) : bool :=
  byteIs (String.get 0 elem) "." || byteIs (String.get 0 elem) "#" ||
  byteIs (String.get 0 elem) "~" ||
  byteIs (String.get (String.length elem - 1) elem) "~".

Definition walkFn (excludeRegexp : list Regexp) (verbose : bool)
    (path : string) (info : option FileInfo) (err : error) : M WalkErr :=
  d <- info_IsDir info ;;
  if d && anyRegexpMatches excludeRegexp path then
    (if verbose
     then log_Printf ("skipping dir (due to exclusion): " ++ path ++ nl)
     else ret tt) ;;;
    ret SkipDir
  else
    let elem := snd (Split path) in
    if negb (elem =? "")%string && hiddenElem elem then
      d' <- info_IsDir info ;;
      if d' then ret SkipDir else ret WalkNil
    else
      match err with
      | Some e => log_Printf (path ++ ": " ++ e) ;;; ret WalkNil
      | None =>
          match info with
          | Some fi =>
              if (Z.land (Mode fi) ModeType =? 0)%Z
              then emit (EvAddFile path) ;;; ret WalkNil
              else ret WalkNil
          | None => ret WalkNil
          end
      end.

(** *** [filepath.Walk] (package [path/filepath]) *)

Section Walk.

Variable fn : string -> option FileInfo -> error -> M WalkErr.

(** The loop over the names of a directory; [walkRec] is the recursive call
    [walk(filename, fileInfo, walkFn)]. *)
Fixpoint walkNames (walkRec : string -> Node -> M WalkErr) (path : string)
    (names : list Node) : M WalkErr :=
  match names with
  | [] => ret WalkNil
  | c :: rest =>
      let filename := Join path (nodeName c) in
      match c with
      | NoStat _ e =>
          (* [err != nil && err != SkipDir] holds for neither [nil] nor
             [SkipDir]: the loop goes on *)
          _ <- fn filename None (Some e) ;;
          walkNames walkRec path rest
      | Stat _ fileInfo _ _ =>
          r <- walkRec filename c ;;
          match r with
          | WalkNil => walkNames walkRec path rest
          | SkipDir =>
              if negb (IsDir fileInfo) then ret SkipDir
              else walkNames walkRec path rest
          end
      end
  end.

(** [walk]; on [NoStat] it is the call [fn(root, nil, err)] that [Walk]
    makes when [Lstat] of the root fails. *)
Fixpoint walk (path : string) (n : Node) {struct n} : M WalkErr :=
  match n with
  | NoStat _ e => fn path None (Some e)
  | Stat _ info readdir children =>
      if negb (IsDir info) then fn path (Some info) None
      else
        err1 <- fn path (Some info) readdir ;;
        if isErr readdir then ret err1
        else
          match err1 with
          | SkipDir => ret SkipDir
          | WalkNil => walkNames walk path children
          end
  end.

(** [Walk] turns a final [SkipDir] into [nil]; [main] drops the result. *)
Definition Walk (root : string) (tree : Node) : M unit :=
  emit (EvWalk root) ;;;
  _ <- walk root tree ;;
  ret tt.

End Walk.

(** *** Lines 111-214: the rest of [main] *)

Section Main.

Variable w : World.
Variable f : Flags.

Fixpoint walkRoots (excludeRegexp : list Regexp) (roots : list string) : M unit :=
  match roots with
  | [] => ret tt
  | arg :: rest =>
      log_Printf ("index " ++ arg) ;;;
      Walk (walkFn excludeRegexp (verboseFlag f)) arg (fs_tree w arg) ;;;
      walkRoots excludeRegexp rest
  end.

(** Lines 207-212. *)
Definition mergePublish (master file : string) : M unit :=
  log_Printf ("merge " ++ master ++ " " ++ file) ;;;
  indexMerge w (file ++ "~") master file ;;;
  emit (EvOsRemove file (os_Remove w file)) ;;;
  emit (EvOsRename (file ++ "~") master (os_Rename w (file ++ "~") master)).

(** Lines 139-143: [*resetFlag] after the [os.Stat] of the master. *)
Definition resetMode : bool :=
  resetFlag f || isErr (os_Stat w (index_File w)).

(** Lines 144-147: [file]. *)
Definition stagingPath : string :=
  if negb resetMode then (index_File w ++ "~")%string else index_File w.

(** Lines 139-214, once the roots are known. *)
Definition build (roots : list string) : M unit :=
  let master := index_File w in
  emit (EvOsStat master (os_Stat w master)) ;;;
  let file := stagingPath in
  excludeRegexp <- compilePatterns w (excludePatterns f) ;;
  ix <- indexCreate w file ;;
  let ix := mkIndexWriter (ix_file ix) (verboseFlag f) in
  emit (EvAddPaths roots) ;;;
  walkRoots excludeRegexp roots ;;;
  log_Printf "flush index" ;;;
  indexFlush w ix ;;;
  (if negb resetMode then mergePublish master file else ret tt) ;;;
  log_Printf "done".

(** Lines 111-214. *)
Definition afterProfile : M unit :=
  if resetFlag f && (List.length (args f) =? 0)%nat then
    emit (EvOsRemove (index_File w) (os_Remove w (index_File w)))
  else
    args0 <- (if (List.length (args f) =? 0)%nat
              then indexOpenPaths w (index_File w)
              else ret (args f)) ;;
    roots <- resolveArgs w args0 ;;
    build roots.

Definition main : M unit :=
  if listFlag f then listPaths w
  else profiled w (cpuProfile f) afterProfile.

End Main.

(** * Vocabulary of the properties *)

(** ** Names and paths *)

(** No byte of [s] is a path separator. *)
Fixpoint noSeparator (s : string) : bool :=
  match s with
  | EmptyString => true
  | String c rest => negb (IsPathSeparator c) && noSeparator rest
  end.

(** [name] is the final component of [path]: what follows the last
    separator, or the whole path when it has none. *)
Definition finalComponent (path name : string) : Prop :=
  noSeparator name = true /\
  (path = name \/ exists parent, path = (parent ++ "/" ++ name)%string).

Definition beginsWith (c : ascii) (s : string) : Prop :=
  exists rest, s = String c rest.

Definition endsWith (c : ascii) (s : string) : Prop :=
  exists front, s = (front ++ String c "")%string.

(** The hidden-entry convention in the words of the specification. *)
Definition hiddenName (name : string) : Prop :=
  beginsWith "." name \/ beginsWith "#" name \/ beginsWith "~" name \/
  endsWith "~" name.

(** ** Directory trees *)

(** Induction on directory trees, with the hypothesis for all children. *)
Fixpoint Node_forall_ind (P : Node -> Prop)
    (HStat : forall name info readdir children,
        Forall P children -> P (Stat name info readdir children))
    (HNoStat : forall name err, P (NoStat name err))
    (n : Node) {struct n} : P n :=
  match n with
  | Stat name info readdir children =>
      HStat name info readdir children
        ((fix children_ok (l : list Node) : Forall P l :=
            match l with
            | [] => Forall_nil P
            | c :: rest =>
                Forall_cons c (Node_forall_ind P HStat HNoStat c)
                  (children_ok rest)
            end) children)
  | NoStat name err => HNoStat name err
  end.

(** ** Quiet stretches of a run *)

(** Events that neither create, write, rename, delete, open nor stat an
    index artifact or a profile, and that happen in the loops of [main]:
    logging and printing, path resolution, pattern compilation, walking and
    reading the corpus. *)
Definition quiet (e : Event) : bool :=
  match e with
  | EvPrint _ | EvLog _ | EvAbs _ _ | EvCompile _ _
  | EvWalk _ | EvAddFile _ => true
  | _ => false
  end.

(** Among them, the events that do not even read the corpus: logging and
    printing, path resolution, pattern compilation. *)
Definition silent (e : Event) : bool :=
  match e with
  | EvPrint _ | EvLog _ | EvAbs _ _ | EvCompile _ _ => true
  | _ => false
  end.

Definition allQuiet (t : list Event) : Prop := Forall (fun e => quiet e = true) t.
Definition allSilent (t : list Event) : Prop := Forall (fun e => silent e = true) t.

(** A piece of the program is calm when it performs quiet events only and
    never exits the process. *)
Definition calm {A} (m : M A) : Prop :=
  Forall (fun e => quiet e = true) (trace m) /\ forall c, outcome m <> Exit c.

(** ** The path resolver *)

(** What the loop of lines 124-132 stores in [args[i]] and what it performs
    for one argument. *)
Definition absResult (w : World) (arg : string) : string :=
  match filepath_Abs w arg with inl a => a | inr _ => "" end.

Definition absEvents (w : World) (arg : string) : list Event :=
  match filepath_Abs w arg with
  | inl _ => [EvAbs arg None]
  | inr err => [EvAbs arg (Some err); EvLog (arg ++ ": " ++ err)]
  end.

(** Go's [<=] on strings. *)
Definition lexLe (a b : string) : Prop := String.leb a b = true.

Definition nonEmpty (s : string) : bool := negb (s =? "")%string.

(** No two neighbours of the list are equal. *)
Fixpoint noAdjacentDup (l : list string) : bool :=
  match l with
  | a :: (b :: _) as rest => negb (a =? b)%string && noAdjacentDup rest
  | _ => true
  end.

(** ** The shape of a run *)

(** Where a build run stops. *)
Inductive BuildEnd :=
| CompileFailed (msg : string)
| CreateFailed
| WalkPanicked (msg : string)
| FlushFailed
| MergeFailed
| Done.

Definition buildOutcome (e : BuildEnd) : Result unit :=
  match e with
  | CompileFailed msg | WalkPanicked msg => Panic msg
  | CreateFailed | FlushFailed | MergeFailed => Exit 1
  | Done => Ok tt
  end.

Section BuildShape.

Variable w : World.
Variable f : Flags.

Let master := index_File w.
Let file := stagingPath w f.

Definition statEvents (tc : list Event) : list Event :=
  EvOsStat master (os_Stat w master) :: tc.

Definition createdEvents (roots : list string) (tc tw : list Event) : list Event :=
  statEvents tc ++ EvIndexCreate file true :: EvAddPaths roots :: tw.

Definition flushedEvents (roots : list string) (tc tw : list Event) : list Event :=
  createdEvents roots tc tw ++ [EvLog "flush index"; EvFlush file true].

Definition publishEvents : list Event :=
  [ EvMerge (file ++ "~") master file true;
    EvOsRemove file (os_Remove w file);
    EvOsRename (file ++ "~") master (os_Rename w (file ++ "~") master) ].

(** The events of a build that stops at [e]; [tc] and [tw] are the events of
    pattern compilation and of the walks. *)
Definition buildEvents (roots : list string) (tc tw : list Event)
    (e : BuildEnd) : list Event :=
  match e with
  | CompileFailed _ => statEvents tc
  | CreateFailed => statEvents tc ++ [EvIndexCreate file false]
  | WalkPanicked _ => createdEvents roots tc tw
  | FlushFailed =>
      createdEvents roots tc tw ++ [EvLog "flush index"; EvFlush file false]
  | MergeFailed =>
      flushedEvents roots tc tw ++
      [ EvLog ("merge " ++ master ++ " " ++ file);
        EvMerge (file ++ "~") master file false ]
  | Done =>
      flushedEvents roots tc tw ++
      (if negb (resetMode w f)
       then EvLog ("merge " ++ master ++ " " ++ file) :: publishEvents
       else []) ++
      [EvLog "done"]
  end.

End BuildShape.

(** The state machine of [main]: [INIT -> (LIST | RESET-ONLY | BUILD) ->
    [MERGE] -> DONE], with the profiling wrapper around everything but
    [LIST]. *)
Section RunShape.

Variable w : World.
Variable f : Flags.

Let master := index_File w.

(** What lines 101-109 add in front of and behind the rest of [main] when
    the profile file could be created. *)
Definition profPre : list Event :=
  if (cpuProfile f =? "")%string then []
  else [EvOsCreate (cpuProfile f) None; EvStartCPUProfile].

Definition profPost (r : Result unit) : list Event :=
  if (cpuProfile f =? "")%string then []
  else match r with
       | Exit _ => []
       | _ => [EvStopCPUProfile; EvFileClose (cpuProfile f)]
       end.

(** Lines 111-214. *)
Inductive AfterShape : list Event -> Result unit -> Prop :=
| AfterResetOnly :
    resetFlag f = true -> args f = [] ->
    AfterShape [EvOsRemove master (os_Remove w master)] (Ok tt)
| AfterOpenFailed :
    resetFlag f = false -> args f = [] -> index_Open w master = None ->
    AfterShape [EvIndexOpen master false] (Exit 1)
| AfterBuild (op tr : list Event) (roots : list string)
    (tc tw : list Event) (e : BuildEnd) :
    (op = [] /\ args f <> [] \/
     op = [EvIndexOpen master true] /\ args f = [] /\ resetFlag f = false /\
     index_Open w master <> None) ->
    (exists args0,
       (args f <> [] /\ args0 = args f \/
        args f = [] /\ index_Open w master = Some args0) /\
       outcome (resolveArgs w args0) = Ok roots) ->
    allSilent tr -> allSilent tc -> allQuiet tw ->
    (e = MergeFailed -> resetMode w f = false) ->
    (forall msg, e = CompileFailed msg ->
       outcome (compilePatterns w (excludePatterns f)) = Panic msg /\
       tc = trace (compilePatterns w (excludePatterns f))) ->
    ((forall msg, e <> CompileFailed msg) ->
       exists rs, outcome (compilePatterns w (excludePatterns f)) = Ok rs) ->
    AfterShape (op ++ tr ++ buildEvents w f roots tc tw e) (buildOutcome e).

Inductive RunShape : list Event -> Result unit -> Prop :=
| RunListFailed :
    listFlag f = true -> index_Open w master = None ->
    RunShape [EvIndexOpen master false] (Exit 1)
| RunListed (paths : list string) :
    listFlag f = true -> index_Open w master = Some paths ->
    RunShape (EvIndexOpen master true ::
              map (fun arg => EvPrint (arg ++ nl)) paths) (Ok tt)
| RunProfileFailed (err : string) :
    listFlag f = false -> cpuProfile f <> "" ->
    os_Create w (cpuProfile f) = Some err ->
    RunShape [EvOsCreate (cpuProfile f) (Some err); EvLog err] (Exit 1)
| RunProfiled (t : list Event) (r : Result unit) :
    listFlag f = false ->
    (cpuProfile f = "" \/ os_Create w (cpuProfile f) = None) ->
    AfterShape t r ->
    RunShape (profPre ++ t ++ profPost r) r.

End RunShape.

(** ** Reading traces *)

(** The paths an event creates, writes, renames or deletes. *)
Definition mutated (e : Event) : list string :=
  match e with
  | EvOsCreate name _ => [name]
  | EvOsRemove name _ => [name]
  | EvIndexCreate file _ => [file]
  | EvFlush file _ => [file]
  | EvMerge dst _ _ _ => [dst]
  | EvOsRename oldpath newpath _ => [oldpath; newpath]
  | _ => []
  end.

Definition touches (p : string) (e : Event) : bool :=
  existsb (String.eqb p) (mutated e).

Definition isStat (e : Event) : bool :=
  match e with EvOsStat _ _ => true | _ => false end.


Definition isMerge (e : Event) : bool :=
  match e with EvMerge _ _ _ _ => true | _ => false end.

Definition isRemove (e : Event) : bool :=
  match e with EvOsRemove _ _ => true | _ => false end.

Definition isRename (e : Event) : bool :=
  match e with EvOsRename _ _ _ => true | _ => false end.

Definition isProfiling (e : Event) : bool :=
  match e with
  | EvOsCreate _ _ | EvStartCPUProfile | EvStopCPUProfile | EvFileClose _ => true
  | _ => false
  end.

(** The steps of building an index: creating the writer, recording roots,
    walking, adding files, flushing, merging. *)
Definition isBuildStep (e : Event) : bool :=
  match e with
  | EvIndexCreate _ _ | EvAddPaths _ | EvWalk _ | EvAddFile _ | EvFlush _ _
  | EvMerge _ _ _ _ => true
  | _ => false
  end.

(** Position of the first event that satisfies [P]. *)
Fixpoint indexOf (P : Event -> bool) (t : list Event) : option nat :=
  match t with
  | [] => None
  | e :: rest =>
      if P e then Some 0 else option_map S (indexOf P rest)
  end.

(** The writer is created at and flushed to [p] only. *)
Definition writerTargets (p : string) (ev : Event) : bool :=
  match ev with
  | EvIndexCreate file _ | EvFlush file _ => (file =? p)%string
  | _ => true
  end.


Definition isMergeOk (ev : Event) : bool :=
  match ev with EvMerge _ _ _ true => true | _ => false end.

Definition isPublishStep (ev : Event) : bool :=
  isMerge ev || isRemove ev || isRename ev.

Definition isFlushFailed (ev : Event) : bool :=
  match ev with EvFlush _ false => true | _ => false end.

Definition isMergeFailed (ev : Event) : bool :=
  match ev with EvMerge _ _ _ false => true | _ => false end.

Definition isStartProfile (ev : Event) : bool :=
  match ev with EvStartCPUProfile => true | _ => false end.

Definition isStopProfile (ev : Event) : bool :=
  match ev with EvStopCPUProfile => true | _ => false end.

Definition isCompile (ev : Event) : bool :=
  match ev with EvCompile _ _ => true | _ => false end.

Definition isCompileFailed (ev : Event) : bool :=
  match ev with EvCompile _ (Some _) => true | _ => false end.

Definition isFlush (ev : Event) : bool :=
  match ev with EvFlush _ _ => true | _ => false end.

Definition isWalk (ev : Event) : bool :=
  match ev with EvWalk _ => true | _ => false end.

(** ** Example worlds *)

(** A stand-in for the pattern engine: ["("] does not compile; any other
    pattern matches where its text occurs literally. *)
Definition literalRegexp (pattern : string) : Regexp :=
  mkRegexp (fun s _ _ =>
              match String.index 0 pattern s with
              | Some _ => 1%Z
              | None => 0%Z
              end).

Definition exampleCompile (pattern : string) : Regexp + string :=
  if (pattern =? "(")%string then inr "regexp: missing closing )"
  else inl (literalRegexp pattern).

Definition regularFile : FileInfo := mkFileInfo 420.
Definition directory : FileInfo := mkFileInfo (Z.lor ModeDir 493).

(** [/home/u/src] holds one Go file; nothing else exists. *)
Definition exampleTree (root : string) : Node :=
  if (root =? "/home/u/src")%string
  then Stat "src" directory None [Stat "main.go" regularFile None []]
  else NoStat root ("lstat " ++ root ++ ": no such file or directory")%string.

(** A home directory [/home/u] with the master index at
    [/home/u/.csearchindex]; the knobs say whether the master exists, whether
    flushing and merging succeed and what removing and renaming answer. *)
Definition exampleWorld (masterExists flushOk mergeOk : bool)
    (removeErr renameErr : error) : World :=
  {| index_File := "/home/u/.csearchindex";
     index_Open := fun _ =>
       if masterExists then Some ["/home/u/src"] else None;
     index_Create := fun _ => true;
     index_Flush := fun _ => flushOk;
     index_Merge := fun _ _ _ => mergeOk;
     os_Create := fun _ => None;
     os_Remove := fun _ => removeErr;
     os_Rename := fun _ _ => renameErr;
     os_Stat := fun name =>
       if masterExists then None
       else Some ("stat " ++ name ++ ": no such file or directory")%string;
     filepath_Abs := fun arg =>
       inl (if String.prefix "/" arg then arg else "/home/u/" ++ arg)%string;
     regexp_Compile := exampleCompile;
     fs_tree := exampleTree |}.

Definition healthyWorld : World := exampleWorld true true true None None.
Definition freshWorld : World := exampleWorld false true true None None.

Definition plainFlags (args : list string) : Flags :=
  {| listFlag := false; resetFlag := false; verboseFlag := false;
     cpuProfile := ""; excludeFlag := []; args := args |}.

Definition resetFlags (args : list string) : Flags :=
  {| listFlag := false; resetFlag := true; verboseFlag := false;
     cpuProfile := ""; excludeFlag := []; args := args |}.

Definition profileFlags (listing : bool) (args : list string) : Flags :=
  {| listFlag := listing; resetFlag := false; verboseFlag := false;
     cpuProfile := "/tmp/cindex.prof"; excludeFlag := []; args := args |}.

Definition excludeFlags (listing : bool) (profile : string)
    (patterns args : list string) : Flags :=
  {| listFlag := listing; resetFlag := false; verboseFlag := false;
     cpuProfile := profile; excludeFlag := patterns; args := args |}.

(** A world whose working directory is gone: relative paths do not
    resolve. *)
Definition lostCwdWorld : World :=
  {| index_File := index_File healthyWorld;
     index_Open := index_Open healthyWorld;
     index_Create := index_Create healthyWorld;
     index_Flush := index_Flush healthyWorld;
     index_Merge := index_Merge healthyWorld;
     os_Create := os_Create healthyWorld;
     os_Remove := os_Remove healthyWorld;
     os_Rename := os_Rename healthyWorld;
     os_Stat := os_Stat healthyWorld;
     filepath_Abs := fun arg =>
       if String.prefix "/" arg then inl arg
       else inr "getwd: no such file or directory";
     regexp_Compile := regexp_Compile healthyWorld;
     fs_tree := fs_tree healthyWorld |}.


(** ** Opening a master that is not there *)


(** * Further parts of the program *)

(** ** [arrayStringFlags] (lines 57-67) and the flag set-up of [main] *)

(** [Set] appends [value] to the slice and returns [nil]. *)
Definition arrayStringFlags_Set (a : list string) (value : string) :
    list string * error :=
  (a ++ [value], None).

(** [String] formats the slice with the verb [%v]: the elements in brackets
    with single spaces between them. *)
Definition arrayStringFlags_String (a : list string) : string :=
  ("[" ++ String.concat " " a ++ "]")%string.

(** Lines 79-90: [excludePatterns] starts as the built-in patterns and
    [flag.Parse] calls [Set] once for each [-exclude] value, in command-line
    order; a [Set] that returned an error would end the parse. *)
Fixpoint flagSetAll (a : list string) (values : list string) :
    list string * error :=
  match values with
  | [] => (a, None)
  | value :: rest =>
      match arrayStringFlags_Set a value with
      | (a', None) => flagSetAll a' rest
      | (a', Some e) => (a', Some e)
      end
  end.

Definition parseExcludes (values : list string) : list string * error :=
  flagSetAll builtinExcludes values.

(** ** More ways to read entries and traces *)

(** The type bits of [os.ModeType], as bit numbers. *)
Definition typeBits : list Z := [31; 27; 26; 25; 24; 21; 19]%Z.

(** Every entry of the tree could be [Lstat]ed. *)
Fixpoint allStat (n : Node) : bool :=
  match n with
  | Stat _ _ _ children => forallb allStat children
  | NoStat _ _ => false
  end.

Definition isLog (ev : Event) : bool :=
  match ev with EvLog _ => true | _ => false end.

(** Every file added by the walk of [n] from [path] lies below [path]. *)
Definition addsBelow (excludeRegexp : list Regexp) (verbose : bool)
    (n : Node) : Prop :=
  forall path p,
    In (EvAddFile p) (trace (walk (walkFn excludeRegexp verbose) path n)) ->
    exists rest, p = (path ++ rest)%string.

(** Walking and adding are the only things a walk does besides logging. *)
Definition isWalkEvent (ev : Event) : bool :=
  match ev with EvLog _ | EvAddFile _ => true | _ => false end.

(** * Properties *)

(** ** The run monad *)

Lemma bind_Ok {A B} (t : list Event) (a : A) (k : A -> M B) :
  bind (t, Ok a) k = (t ++ trace (k a), outcome (k a)).
Proof. unfold bind, trace, outcome. destruct (k a); reflexivity. Qed.

Lemma bind_emit {B} (e : Event) (k : unit -> M B) :
  bind (emit e) k = (e :: trace (k tt), outcome (k tt)).
Proof. unfold emit. rewrite bind_Ok. reflexivity. Qed.

Lemma bind_ret {A B} (a : A) (k : A -> M B) : bind (ret a) k = k a.
Proof. unfold ret. rewrite bind_Ok. destruct (k a); reflexivity. Qed.

Lemma bind_assoc {A B C} (m : M A) (k1 : A -> M B) (k2 : B -> M C) :
  bind (bind m k1) k2 = bind m (fun a => bind (k1 a) k2).
Proof.
  destruct m as [t [a | msg | c]]; cbn; try reflexivity.
  destruct (k1 a) as [t1 [b | msg | c]]; cbn; try reflexivity.
  destruct (k2 b) as [t2 r]. rewrite app_assoc. reflexivity.
Qed.

(** A run of [bind m k] is the run of [m] followed, when [m] returns, by the
    run of the continuation. *)
Lemma bind_cases {A B} (m : M A) (k : A -> M B) :
  (exists a, outcome m = Ok a /\
             bind m k = (trace m ++ trace (k a), outcome (k a))) \/
  (exists msg, outcome m = Panic msg /\ bind m k = (trace m, Panic msg)) \/
  (exists c, outcome m = Exit c /\ bind m k = (trace m, Exit c)).
Proof.
  destruct m as [t [a | msg | c]]; cbn [trace outcome fst snd].
  - left. exists a. split; [reflexivity | apply bind_Ok].
  - right; left. exists msg. split; reflexivity.
  - right; right. exists c. split; reflexivity.
Qed.

Lemma trace_bind_Forall {A B} (P : Event -> Prop) (m : M A) (k : A -> M B) :
  Forall P (trace m) -> (forall a, Forall P (trace (k a))) ->
  Forall P (trace (bind m k)).
Proof.
  intros Hm Hk.
  destruct (bind_cases m k) as [(a & _ & E) | [(msg & _ & E) | (c & _ & E)]];
    rewrite E; cbn [trace fst]; auto.
  apply Forall_app; split; [assumption | apply Hk].
Qed.

Lemma outcome_bind_not_Exit {A B} (m : M A) (k : A -> M B) :
  (forall c, outcome m <> Exit c) ->
  (forall a c, outcome (k a) <> Exit c) ->
  forall c, outcome (bind m k) <> Exit c.
Proof.
  intros Hm Hk c.
  destruct (bind_cases m k) as [(a & _ & E) | [(msg & _ & E) | (c' & Hc & _)]].
  - rewrite E. apply Hk.
  - rewrite E. discriminate.
  - exfalso. exact (Hm c' Hc).
Qed.

(** ** Strings *)

Lemma get_app_right (s1 s2 : string) (n : nat) :
  String.get (String.length s1 + n) (s1 ++ s2)%string = String.get n s2.
Proof. induction s1; cbn; auto. Qed.

Lemma length_app (s1 s2 : string) :
  String.length (s1 ++ s2)%string = String.length s1 + String.length s2.
Proof. induction s1; cbn; auto. Qed.

Lemma app_assoc_string (s1 s2 s3 : string) :
  ((s1 ++ s2) ++ s3)%string = (s1 ++ (s2 ++ s3))%string.
Proof. induction s1; cbn; congruence. Qed.

Lemma substring_all (s : string) : substring 0 (String.length s) s = s.
Proof. induction s; cbn; congruence. Qed.

Lemma substring_app_suffix (s1 s2 : string) :
  substring (String.length s1) (String.length s2) (s1 ++ s2)%string = s2.
Proof. induction s1 as [| c s1 IH]; cbn; [apply substring_all | exact IH]. Qed.

Lemma append_nonempty_neq (s t : string) : t <> "" -> (s ++ t)%string <> s.
Proof.
  intros Ht E. apply (f_equal String.length) in E. rewrite length_app in E.
  destruct t; [congruence | cbn in E; lia].
Qed.

Lemma noSeparator_get (s : string) (n : nat) (c : ascii) :
  noSeparator s = true -> String.get n s = Some c -> IsPathSeparator c = false.
Proof.
  revert n. induction s as [| b s IH]; cbn; intros n Hs Hg; [discriminate |].
  apply andb_true_iff in Hs. destruct Hs as [Hb Hs].
  destruct n.
  - injection Hg as <-. now apply negb_true_iff.
  - eauto.
Qed.

Lemma scanBack_name (dir name : string) (k : nat) :
  noSeparator name = true -> k <= String.length name ->
  scanBack (dir ++ name) (String.length dir + k) =
  scanBack (dir ++ name) (String.length dir).
Proof.
  intros Hn. induction k as [| k IH]; intros Hk.
  - rewrite Nat.add_0_r. reflexivity.
  - rewrite Nat.add_succ_r. cbn [scanBack]. rewrite get_app_right.
    destruct (String.get k name) as [c |] eqn:G.
    + rewrite (noSeparator_get _ _ _ Hn G). apply IH. lia.
    + apply IH. lia.
Qed.

Lemma scanBack_sep (pre rest : string) :
  scanBack ((pre ++ "/") ++ rest) (String.length (pre ++ "/")) =
  String.length (pre ++ "/").
Proof.
  rewrite length_app. cbn [String.length]. rewrite Nat.add_1_r.
  cbn [scanBack].
  rewrite <- (Nat.add_0_r (String.length pre)).
  rewrite app_assoc_string, get_app_right. cbn.
  rewrite Nat.add_0_r. reflexivity.
Qed.

Lemma Split_finalComponent (path name : string) :
  finalComponent path name -> snd (Split path) = name.
Proof.
  intros [Hn [-> | [parent ->]]]; unfold Split; cbn [snd].
  - pose proof (scanBack_name "" name (String.length name) Hn (le_n _)) as E.
    cbn in E. rewrite E, Nat.sub_0_r. apply substring_all.
  - rewrite <- app_assoc_string.
    pose proof (scanBack_name (parent ++ "/") name (String.length name) Hn
                  (le_n _)) as E.
    rewrite scanBack_sep in E.
    rewrite (length_app (parent ++ "/") name), E.
    replace (String.length (parent ++ "/") + String.length name
             - String.length (parent ++ "/")) with (String.length name) by lia.
    apply substring_app_suffix.
Qed.

Lemma hiddenName_hiddenElem (name : string) :
  hiddenName name -> name <> "" /\ hiddenElem name = true.
Proof.
  unfold hiddenElem.
  intros [[r ->] | [[r ->] | [[r ->] | [front ->]]]];
    try (split; [discriminate | reflexivity]).
  split.
  - destruct front; discriminate.
  - rewrite length_app. cbn [String.length].
    replace (String.length front + 1 - 1) with (String.length front + 0) by lia.
    rewrite get_app_right. cbn. rewrite !orb_true_r. reflexivity.
Qed.

(** ** The walk callback *)

(** C7. An entry that the directory-pattern rule lets through and whose
    final path component begins with [.], [#] or [~], or ends with [~], is
    answered with [SkipDir] when it is a directory and with plain [nil]
    otherwise, without logging and without adding the file, whatever the
    compiled patterns, the verbosity and the traversal error are. *)
Theorem hidden_entry_skipped
    (excludeRegexp : list Regexp) (verbose : bool)
    (path name : string) (fi : FileInfo) (err : error) :
  finalComponent path name ->
  hiddenName name ->
  IsDir fi && anyRegexpMatches excludeRegexp path = false ->
  walkFn excludeRegexp verbose path (Some fi) err =
  ([], Ok (if IsDir fi then SkipDir else WalkNil)).
Proof.
  intros Hfinal Hhidden Hrule.
  apply Split_finalComponent in Hfinal.
  apply hiddenName_hiddenElem in Hhidden. destruct Hhidden as [Hne Hh].
  unfold walkFn, info_IsDir. rewrite bind_ret, Hrule, Hfinal, Hh.
  apply String.eqb_neq in Hne. rewrite Hne. cbn [negb andb].
  rewrite bind_ret. destruct (IsDir fi); reflexivity.
Qed.

Lemma hidden_entry_skipped_witness :
  walkFn [mkRegexp (fun _ _ _ => 1%Z)] true "/src/app/notes.txt~"
         (Some (mkFileInfo 0)) None = ([], Ok WalkNil) /\
  walkFn [] false "/src/app/.git" (Some (mkFileInfo ModeDir)) (Some "denied") =
  ([], Ok SkipDir).
Proof.
  split.
  - apply (hidden_entry_skipped [mkRegexp (fun _ _ _ => 1%Z)] true
             "/src/app/notes.txt~" "notes.txt~" (mkFileInfo 0) None).
    + split; [reflexivity | right; exists "/src/app"; reflexivity].
    + right; right; right. exists "notes.txt". reflexivity.
    + reflexivity.
  - apply (hidden_entry_skipped [] false "/src/app/.git" ".git"
             (mkFileInfo ModeDir) (Some "denied")).
    + split; [reflexivity | right; exists "/src/app"; reflexivity].
    + left. exists "git". reflexivity.
    + reflexivity.
Defined.

(** ** Quiet stretches of a run *)

Lemma calm_ret {A} (a : A) : calm (ret a).
Proof. split; [constructor | discriminate]. Qed.

Lemma calm_panic {A} (msg : string) : calm (@panic A msg).
Proof. split; [constructor | discriminate]. Qed.

Lemma calm_emit (e : Event) : quiet e = true -> calm (emit e).
Proof. intros H. split; [repeat constructor; exact H | discriminate]. Qed.

Lemma calm_bind {A B} (m : M A) (k : A -> M B) :
  calm m -> (forall a, calm (k a)) -> calm (bind m k).
Proof.
  intros [Hm1 Hm2] Hk. split.
  - apply trace_bind_Forall; [assumption | intros a; apply Hk].
  - apply outcome_bind_not_Exit; [assumption | intros a; apply Hk].
Qed.

Ltac calm_step :=
  first [ apply calm_ret | apply calm_panic
        | apply calm_emit; reflexivity
        | apply calm_bind; [| intros ?] ].

Lemma printPaths_eq (paths : list string) :
  printPaths paths = (map (fun arg => EvPrint (arg ++ nl)) paths, Ok tt).
Proof.
  induction paths as [| arg rest IH]; cbn [printPaths map]; [reflexivity |].
  rewrite bind_emit, IH. reflexivity.
Qed.

Lemma walkFn_calm (excludeRegexp : list Regexp) (verbose : bool)
    (path : string) (info : option FileInfo) (err : error) :
  calm (walkFn excludeRegexp verbose path info err).
Proof.
  unfold walkFn, info_IsDir, log_Printf.
  destruct info as [fi |]; [| repeat calm_step].
  rewrite bind_ret.
  destruct (IsDir fi && anyRegexpMatches excludeRegexp path).
  - destruct verbose; repeat calm_step.
  - destruct (negb (snd (Split path) =? "")%string && hiddenElem (snd (Split path))).
    + rewrite bind_ret. destruct (IsDir fi); calm_step.
    + destruct err; [repeat calm_step |].
      destruct (Z.land (Mode fi) ModeType =? 0)%Z; repeat calm_step.
Qed.

Section WalkCalm.

Variable fn : string -> option FileInfo -> error -> M WalkErr.
Hypothesis fn_calm : forall path info err, calm (fn path info err).

Lemma walkNames_calm (walkRec : string -> Node -> M WalkErr) (path : string)
    (names : list Node) :
  Forall (fun c => forall p, calm (walkRec p c)) names ->
  calm (walkNames fn walkRec path names).
Proof.
  induction 1 as [| c rest Hc _ IH]; cbn [walkNames]; [apply calm_ret |].
  destruct c as [name fileInfo readdir children | name e].
  - apply calm_bind; [apply Hc |]. intros [|]; [exact IH |].
    destruct (negb (IsDir fileInfo)); [apply calm_ret | exact IH].
  - apply calm_bind; [apply fn_calm | intros _; exact IH].
Qed.

Lemma walk_calm (n : Node) : forall path, calm (walk fn path n).
Proof.
  induction n as [name info readdir children IH | name e]
    using Node_forall_ind; intros path; cbn [walk]; [| apply fn_calm].
  destruct (negb (IsDir info)); [apply fn_calm |].
  apply calm_bind; [apply fn_calm |]. intros err1.
  destruct (isErr readdir); [apply calm_ret |].
  destruct err1; [| apply calm_ret].
  apply walkNames_calm. exact IH.
Qed.

Lemma Walk_calm (root : string) (tree : Node) : calm (Walk fn root tree).
Proof.
  unfold Walk. apply calm_bind; [apply calm_emit; reflexivity |]. intros _.
  apply calm_bind; [apply walk_calm | intros _; apply calm_ret].
Qed.

End WalkCalm.

Lemma walkRoots_calm (w : World) (f : Flags) (excludeRegexp : list Regexp)
    (roots : list string) :
  calm (walkRoots w f excludeRegexp roots).
Proof.
  induction roots as [| arg rest IH]; cbn [walkRoots]; [apply calm_ret |].
  apply calm_bind; [apply calm_emit; reflexivity |]. intros _.
  apply calm_bind; [| intros _; exact IH].
  apply Walk_calm. intros. apply walkFn_calm.
Qed.

Lemma compilePatterns_calm (w : World) (patterns : list string) :
  calm (compilePatterns w patterns).
Proof.
  induction patterns as [| p rest IH]; cbn [compilePatterns]; [apply calm_ret |].
  destruct (regexp_Compile w p); repeat calm_step. exact IH.
Qed.

Lemma silent_quiet (e : Event) : silent e = true -> quiet e = true.
Proof. destruct e; cbn; congruence. Qed.

Lemma allSilent_allQuiet (t : list Event) : allSilent t -> allQuiet t.
Proof. intros H. eapply Forall_impl; [| exact H]. exact silent_quiet. Qed.

Lemma compilePatterns_silent (w : World) (patterns : list string) :
  allSilent (trace (compilePatterns w patterns)).
Proof.
  induction patterns as [| p rest IH]; cbn [compilePatterns]; [constructor |].
  destruct (regexp_Compile w p); rewrite bind_emit; cbn [trace fst];
    constructor; try reflexivity; [| constructor].
  apply trace_bind_Forall; [exact IH | intros; constructor].
Qed.

(** Compilation succeeds exactly when every pattern compiles. *)
Lemma compilePatterns_all_good (w : World) (patterns : list string) :
  (forall p, In p patterns -> exists r, regexp_Compile w p = inl r) ->
  exists rs, outcome (compilePatterns w patterns) = Ok rs.
Proof.
  induction patterns as [| p rest IH]; intros Hall; cbn [compilePatterns].
  - exists []. reflexivity.
  - destruct (Hall p (or_introl eq_refl)) as [r ->].
    destruct IH as [rs Hrs]; [intros q Hq; apply Hall; right; exact Hq |].
    exists (r :: rs). rewrite bind_emit. cbn [outcome snd].
    destruct (bind_cases (compilePatterns w rest) (fun rs0 => ret (r :: rs0)))
      as [(a & Ha & E) | [(msg & Hm & _) | (c & Hc & _)]]; try congruence.
    rewrite E. cbn. congruence.
Qed.

Lemma compilePatterns_malformed (w : World) (patterns : list string) :
  (exists p err, In p patterns /\ regexp_Compile w p = inr err) ->
  exists err, outcome (compilePatterns w patterns) = Panic err.
Proof.
  induction patterns as [| p rest IH]; intros (q & err & Hin & Hq).
  - destruct Hin.
  - cbn [compilePatterns].
    destruct (regexp_Compile w p) as [r | e] eqn:Ep.
    + destruct Hin as [-> | Hin]; [congruence |].
      destruct IH as [err' Herr']; [exists q, err; auto |].
      exists err'. rewrite bind_emit. cbn [outcome snd].
      destruct (bind_cases (compilePatterns w rest) (fun rs0 => ret (r :: rs0)))
        as [(a & Ha & _) | [(msg & Hm & E) | (c & Hc & _)]]; try congruence.
      rewrite E. cbn. congruence.
    + exists e. rewrite bind_emit. reflexivity.
Qed.

(** ** The path resolver *)

Lemma absArgs_eq (w : World) (args : list string) :
  absArgs w args = (flat_map (absEvents w) args, Ok (map (absResult w) args)).
Proof.
  induction args as [| arg rest IH]; cbn [absArgs flat_map map]; [reflexivity |].
  rewrite IH.
  generalize (flat_map (absEvents w) rest), (map (absResult w) rest).
  intros t r. unfold absEvents, absResult.
  destruct (filepath_Abs w arg) as [a | err]; cbn; rewrite app_nil_r;
    reflexivity.
Qed.

Lemma resolveArgs_eq (w : World) (args : list string) :
  resolveArgs w args =
  (flat_map (absEvents w) args,
   Ok (dropEmpty (sort_Strings (map (absResult w) args)))).
Proof.
  unfold resolveArgs. rewrite absArgs_eq, bind_Ok. cbn. rewrite app_nil_r.
  reflexivity.
Qed.

Lemma resolveArgs_calm (w : World) (args : list string) :
  calm (resolveArgs w args).
Proof.
  rewrite resolveArgs_eq. split; [| discriminate]. cbn [trace fst].
  induction args as [| arg rest IH]; cbn [flat_map]; [constructor |].
  apply Forall_app; split; [| exact IH].
  unfold absEvents. destruct (filepath_Abs w arg); repeat constructor.
Qed.

Lemma insertString_perm (x : string) (l : list string) :
  Permutation (x :: l) (insertString x l).
Proof.
  induction l as [| y t IH]; cbn [insertString]; [reflexivity |].
  destruct (String.leb x y); [reflexivity |].
  rewrite perm_swap. apply perm_skip. exact IH.
Qed.

Lemma sort_Strings_perm (l : list string) : Permutation l (sort_Strings l).
Proof.
  induction l as [| x t IH]; cbn [sort_Strings]; [constructor |].
  rewrite <- insertString_perm. apply perm_skip. exact IH.
Qed.

Lemma insertString_HdRel (a x : string) (l : list string) :
  lexLe a x -> HdRel lexLe a l -> HdRel lexLe a (insertString x l).
Proof.
  intros Hax Hl. destruct l as [| y t]; cbn [insertString].
  - constructor. exact Hax.
  - destruct (String.leb x y); constructor; [exact Hax |].
    inversion Hl; assumption.
Qed.

Lemma insertString_sorted (x : string) (l : list string) :
  Sorted lexLe l -> Sorted lexLe (insertString x l).
Proof.
  induction 1 as [| y t Ht IH Hy]; cbn [insertString].
  - repeat constructor.
  - destruct (String.leb x y) eqn:E.
    + repeat constructor; assumption.
    + constructor; [exact IH |].
      apply insertString_HdRel; [| exact Hy].
      destruct (String.leb_total x y) as [H | H]; [congruence | exact H].
Qed.

Lemma sort_Strings_sorted (l : list string) : Sorted lexLe (sort_Strings l).
Proof.
  induction l as [| x t IH]; cbn [sort_Strings]; [constructor |].
  apply insertString_sorted. exact IH.
Qed.

Lemma dropEmpty_sorted (l : list string) :
  Sorted lexLe l -> Sorted lexLe (dropEmpty l).
Proof.
  induction 1 as [| a t Ht IH Ha]; cbn [dropEmpty]; [constructor |].
  destruct (a =? "")%string; [exact IH | constructor; assumption].
Qed.

Lemma lexLe_empty (a : string) : lexLe a "" -> a = "".
Proof. destruct a; [reflexivity | discriminate]. Qed.

(** In a sorted list the empty strings come first. *)
Lemma sorted_nonEmpty_head (a : string) (l : list string) :
  Sorted lexLe (a :: l) -> a <> "" -> filter nonEmpty (a :: l) = a :: l.
Proof.
  revert a. induction l as [| b t IH]; intros a Hs Ha; cbn [filter].
  - unfold nonEmpty. apply String.eqb_neq in Ha. rewrite Ha. reflexivity.
  - assert (Hb : b <> "").
    { intros ->. apply Sorted_inv in Hs. destruct Hs as [_ Hh].
      apply HdRel_inv in Hh. apply Ha, lexLe_empty, Hh. }
    apply Sorted_inv in Hs. destruct Hs as [Hs _].
    specialize (IH b Hs Hb). cbn [filter] in IH. rewrite IH.
    unfold nonEmpty. apply String.eqb_neq in Ha. rewrite Ha. reflexivity.
Qed.

Lemma dropEmpty_filter (l : list string) :
  Sorted lexLe l -> dropEmpty l = filter nonEmpty l.
Proof.
  induction 1 as [| a t Ht IH Ha]; [reflexivity |].
  cbn [dropEmpty]. destruct (a =? "")%string eqn:E.
  - cbn [filter]. unfold nonEmpty at 1. rewrite E. exact IH.
  - symmetry. apply sorted_nonEmpty_head.
    + constructor; assumption.
    + apply String.eqb_neq. exact E.
Qed.

Lemma filter_perm {A} (p : A -> bool) (l l' : list A) :
  Permutation l l' -> Permutation (filter p l) (filter p l').
Proof.
  induction 1 as [| x l l' _ IH | x y l | l l' l'' _ IH1 _ IH2]; cbn [filter].
  - constructor.
  - destruct (p x); [apply perm_skip |]; exact IH.
  - destruct (p x), (p y); try reflexivity. apply perm_swap.
  - etransitivity; eassumption.
Qed.

(** ** The shape of a run *)

Section BuildShapeFacts.

Variable w : World.
Variable f : Flags.

Local Abbreviation master := (index_File w).
Local Abbreviation file := (stagingPath w f).

Lemma mergePublish_shape :
  mergePublish w master file =
    (if index_Merge w (file ++ "~") master file
     then (EvLog ("merge " ++ master ++ " " ++ file) :: publishEvents w f, Ok tt)
     else ([ EvLog ("merge " ++ master ++ " " ++ file);
             EvMerge (file ++ "~") master file false ], Exit 1)).
Proof.
  unfold mergePublish, indexMerge, publishEvents, log_Printf.
  destruct (index_Merge w (file ++ "~") master file); reflexivity.
Qed.

Lemma build_shape (roots : list string) :
  exists tc tw e,
    allSilent tc /\ allQuiet tw /\
    (e = MergeFailed -> resetMode w f = false) /\
    (forall msg, e = CompileFailed msg ->
       outcome (compilePatterns w (excludePatterns f)) = Panic msg /\
       tc = trace (compilePatterns w (excludePatterns f))) /\
    ((forall msg, e <> CompileFailed msg) ->
       exists rs, outcome (compilePatterns w (excludePatterns f)) = Ok rs) /\
    build w f roots = (buildEvents w f roots tc tw e, buildOutcome e).
Proof.
  unfold build. cbv zeta.
  rewrite bind_emit.
  destruct (compilePatterns_calm w (excludePatterns f)) as [_ Hxc].
  pose proof (compilePatterns_silent w (excludePatterns f)) as Hqc.
  destruct (compilePatterns w (excludePatterns f)) as [tc [rs | msg | c]] eqn:Ec;
    cbn [trace outcome fst snd] in *.
  2: { exists tc, [], (CompileFailed msg).
       split; [exact Hqc |]. split; [constructor |]. split; [discriminate |].
       split; [intros m [= <-]; split; reflexivity |].
       split; [intros Hm; exfalso; exact (Hm msg eq_refl) | reflexivity]. }
  2: { exfalso. exact (Hxc c eq_refl). }
  assert (Hgood : exists rs0 : list Regexp, Ok rs = Ok rs0)
    by (exists rs; reflexivity).
  rewrite bind_Ok. unfold indexCreate.
  destruct (index_Create w file) eqn:Ecreate.
  2: { exists tc, [], CreateFailed.
       split; [exact Hqc |]. split; [constructor |]. split; [discriminate |].
       split; [discriminate |]. split; [intros _; exact Hgood | reflexivity]. }
  rewrite bind_assoc, bind_emit, bind_ret. cbn [trace outcome fst snd].
  rewrite bind_emit. cbn [trace outcome fst snd].
  destruct (walkRoots_calm w f rs roots) as [Hqw Hxw].
  destruct (walkRoots w f rs roots) as [tw [[] | msg | c]] eqn:Ew;
    cbn [trace outcome fst snd] in *.
  2: { exists tc, tw, (WalkPanicked msg).
       split; [exact Hqc |]. split; [exact Hqw |]. split; [discriminate |].
       split; [discriminate |]. split; [intros _; exact Hgood | reflexivity]. }
  2: { exfalso. exact (Hxw c eq_refl). }
  rewrite bind_Ok. unfold log_Printf at 1. rewrite bind_emit.
  unfold indexFlush. cbn [ix_file].
  destruct (index_Flush w file) eqn:Eflush.
  2: { exists tc, tw, FlushFailed.
       split; [exact Hqc |]. split; [exact Hqw |]. split; [discriminate |].
       split; [discriminate |]. split; [intros _; exact Hgood |].
       unfold buildEvents, createdEvents, statEvents. cbn.
       rewrite <- !app_assoc. reflexivity. }
  rewrite bind_emit. cbn [trace outcome fst snd].
  destruct (resetMode w f) eqn:Ereset; cbn [negb].
  - exists tc, tw, Done.
    split; [exact Hqc |]. split; [exact Hqw |]. split; [discriminate |].
    split; [discriminate |]. split; [intros _; exact Hgood |].
    unfold buildEvents, flushedEvents, createdEvents, statEvents.
    rewrite Ereset. cbn. rewrite <- !app_assoc. reflexivity.
  - rewrite mergePublish_shape.
    destruct (index_Merge w (file ++ "~") master file) eqn:Emerge.
    + exists tc, tw, Done.
      split; [exact Hqc |]. split; [exact Hqw |]. split; [discriminate |].
      split; [discriminate |]. split; [intros _; exact Hgood |].
      unfold buildEvents, flushedEvents, createdEvents, statEvents,
        publishEvents.
      rewrite Ereset. cbn. rewrite <- !app_assoc. reflexivity.
    + exists tc, tw, MergeFailed.
      split; [exact Hqc |]. split; [exact Hqw |]. split; [reflexivity |].
      split; [discriminate |]. split; [intros _; exact Hgood |].
      unfold buildEvents, flushedEvents, createdEvents, statEvents. cbn.
      rewrite <- !app_assoc. reflexivity.
Qed.

End BuildShapeFacts.

Section RunShapeFacts.

Variable w : World.
Variable f : Flags.

Local Abbreviation master := (index_File w).

Lemma absEvents_quiet (l : list string) : allSilent (flat_map (absEvents w) l).
Proof.
  induction l as [| arg rest IH]; cbn [flat_map]; [constructor |].
  apply Forall_app; split; [| exact IH].
  unfold absEvents. destruct (filepath_Abs w arg); repeat constructor.
Qed.

Lemma afterProfile_shape :
  AfterShape w f (trace (afterProfile w f)) (outcome (afterProfile w f)).
Proof.
  unfold afterProfile.
  destruct (args f) as [| a0 rest] eqn:Eargs; cbn [List.length Nat.eqb].
  - destruct (resetFlag f) eqn:Ereset; cbn [andb].
    + apply AfterResetOnly; assumption.
    + unfold indexOpenPaths.
      destruct (index_Open w master) as [paths |] eqn:Eopen.
      * rewrite bind_assoc, bind_emit, bind_ret. cbn [trace outcome fst snd].
        rewrite resolveArgs_eq, bind_Ok. cbn [trace outcome fst snd].
        destruct (build_shape w f (dropEmpty (sort_Strings (map (absResult w) paths))))
          as (tc & tw & e & Hc & Hw & Hm & Hbad & Hgood & E).
        rewrite E. cbn [trace outcome fst snd].
        apply (AfterBuild w f [EvIndexOpen master true]); try assumption.
        -- right. repeat split; congruence.
        -- exists paths. split; [right; split; [exact Eargs | exact Eopen] |].
           rewrite resolveArgs_eq. reflexivity.
        -- apply absEvents_quiet.
      * apply AfterOpenFailed; assumption.
  - rewrite andb_false_r, bind_ret.
    rewrite resolveArgs_eq, bind_Ok. cbn [trace outcome fst snd].
    destruct (build_shape w f
                (dropEmpty (sort_Strings (map (absResult w) (a0 :: rest)))))
      as (tc & tw & e & Hc & Hw & Hm & Hbad & Hgood & E).
    rewrite E. cbn [trace outcome fst snd].
    apply (AfterBuild w f []); try assumption.
    + left. split; [reflexivity | rewrite Eargs; discriminate].
    + exists (a0 :: rest).
      split; [left; split; [rewrite Eargs; discriminate | symmetry; exact Eargs] |].
      rewrite resolveArgs_eq. reflexivity.
    + apply absEvents_quiet.
Qed.

Lemma main_shape : RunShape w f (trace (main w f)) (outcome (main w f)).
Proof.
  unfold main. destruct (listFlag f) eqn:Elist.
  - unfold listPaths, indexOpenPaths.
    destruct (index_Open w master) as [paths |] eqn:Eopen.
    + rewrite bind_assoc, bind_emit, bind_ret, printPaths_eq.
      apply RunListed; assumption.
    + apply RunListFailed; assumption.
  - pose proof afterProfile_shape as Hafter.
    unfold profiled.
    destruct (cpuProfile f =? "")%string eqn:Eprof.
    + apply String.eqb_eq in Eprof.
      pose proof (RunProfiled w f _ _ Elist (or_introl Eprof) Hafter) as H.
      unfold profPre, profPost in H. rewrite Eprof in H. cbn in H.
      rewrite app_nil_r in H. exact H.
    + destruct (os_Create w (cpuProfile f)) as [err |] eqn:Ecreate.
      * apply String.eqb_neq in Eprof.
        apply (RunProfileFailed w f err); assumption.
      * pose proof (RunProfiled w f _ _ Elist (or_intror Ecreate) Hafter) as H.
        unfold profPre, profPost in H. rewrite Eprof in H.
        rewrite !bind_emit. unfold defer.
        destruct (afterProfile w f) as [t [[] | msg | c]];
          cbn [trace outcome fst snd app] in *; rewrite ?app_nil_r in H;
          exact H.
Qed.

End RunShapeFacts.

(** ** Reading traces *)

Lemma allQuiet_Forall (P : Event -> Prop) (t : list Event) :
  (forall e, quiet e = true -> P e) -> allQuiet t -> Forall P t.
Proof. intros HP Ht. eapply Forall_impl; [| exact Ht]. exact HP. Qed.


(** If all of [A] and [B] fail [Q] and [x] satisfies it, [x] is the only
    place where the list can be cut at a [Q]-event. *)
Lemma unique_cut (Q : Event -> bool) (A B : list Event) (x : Event) :
  Forall (fun e => Q e = false) A -> Forall (fun e => Q e = false) B ->
  forall pre e post, A ++ x :: B = pre ++ e :: post -> Q e = true ->
  pre = A /\ e = x /\ post = B.
Proof.
  induction 1 as [| a A Ha _ IH]; intros HB pre e post E He.
  - destruct pre as [| y pre]; cbn in E; injection E as -> E.
    + subst. auto.
    + exfalso. rewrite E in HB. apply Forall_app in HB. destruct HB as [_ HB].
      apply Forall_inv in HB. congruence.
  - destruct pre as [| y pre]; cbn in E; injection E as -> E.
    + congruence.
    + destruct (IH HB pre e post E He) as (-> & -> & ->). auto.
Qed.

Lemma no_cut (Q : Event -> bool) (t : list Event) :
  Forall (fun e => Q e = false) t ->
  forall pre e post, t = pre ++ e :: post -> Q e = true -> False.
Proof.
  intros Ht pre e post -> He. apply Forall_app in Ht. destruct Ht as [_ Ht].
  apply Forall_inv in Ht. congruence.
Qed.

Lemma allSilent_Forall (P : Event -> Prop) (t : list Event) :
  (forall e, silent e = true -> P e) -> allSilent t -> Forall P t.
Proof. intros HP Ht. eapply Forall_impl; [| exact Ht]. exact HP. Qed.

Lemma prints_silent (paths : list string) :
  allSilent (map (fun arg => EvPrint (arg ++ nl)) paths).
Proof. induction paths; constructor; [reflexivity | assumption]. Qed.

Ltac event_cases :=
  let e := fresh "e" in
  intros e; destruct e; cbn; intros; try discriminate; auto.

Ltac quiet_stretch :=
  first
    [ apply allQuiet_Forall;
      [ solve [event_cases]
      | first [ assumption
              | apply allSilent_allQuiet;
                first [assumption | apply prints_silent] ] ]
    | apply allSilent_Forall;
      [ solve [event_cases]
      | first [assumption | apply prints_silent] ] ].

(** Proves [Forall P] over a trace put together from explicit events and
    quiet stretches, for a [P] that computes on explicit events. *)
Ltac trace_forall_with tac :=
  repeat first
    [ assumption
    | apply Forall_nil
    | apply Forall_cons; [cbn; tac |]
    | apply Forall_app; split
    | quiet_stretch ].

Ltac trace_forall := trace_forall_with ltac:(auto).

(** Opens the shape of [main w f] into its cases. *)
Ltac run_cases w f :=
  let Ht := fresh "Htrace" in
  let Ho := fresh "Hout" in
  let H := fresh "Hshape" in
  pose proof (main_shape w f) as H;
  remember (trace (main w f)) as t eqn:Ht;
  remember (outcome (main w f)) as r eqn:Ho;
  clear Ht Ho;
  destruct H as
    [ Hlist Hopen
    | paths Hlist Hopen
    | err Hlist Hprof Hcreate
    | t r Hlist Hprof
        [ Hreset Hargs
        | Hreset Hargs Hopen
        | op tr roots tc tw e Hop Hroots Hqr Hqc Hqw Hmf Hbad Hgood ] ].

(** ** Recovering the roots from the master index *)

(** The run behind the profiling block of lines 101-109, when the profile
    file can be created or no profile is asked for. *)
Lemma main_profiled_eq (w : World) (f : Flags) :
  listFlag f = false ->
  cpuProfile f = "" \/ os_Create w (cpuProfile f) = None ->
  trace (main w f) =
    profPre f ++ trace (afterProfile w f) ++
    profPost f (outcome (afterProfile w f)) /\
  outcome (main w f) = outcome (afterProfile w f).
Proof.
  intros Hl Hp. unfold main. rewrite Hl. unfold profiled, profPre, profPost.
  destruct (cpuProfile f =? "")%string eqn:Eprof.
  - cbn [app]. rewrite app_nil_r. split; reflexivity.
  - destruct Hp as [Hp | Hp]; [apply String.eqb_neq in Eprof; congruence |].
    rewrite Hp, !bind_emit. unfold defer.
    destruct (afterProfile w f) as [t [[] | msg | c]];
      cbn [trace outcome fst snd app]; rewrite ?app_nil_r; split; reflexivity.
Qed.






(** ** Operating mode *)

Lemma resetMode_true_iff (w : World) (f : Flags) :
  resetMode w f = true <->
  resetFlag f = true \/ os_Stat w (index_File w) <> None.
Proof.
  unfold resetMode. rewrite orb_true_iff.
  destruct (os_Stat w (index_File w)); cbn; intuition congruence.
Qed.

Lemma resetMode_false_iff (w : World) (f : Flags) :
  resetMode w f = false <->
  resetFlag f = false /\ os_Stat w (index_File w) = None.
Proof.
  unfold resetMode. rewrite orb_false_iff.
  destruct (os_Stat w (index_File w)); cbn; intuition congruence.
Qed.

Lemma stagingPath_reset (w : World) (f : Flags) :
  resetMode w f = true -> stagingPath w f = index_File w.
Proof. unfold stagingPath. intros ->. reflexivity. Qed.

Lemma stagingPath_incremental (w : World) (f : Flags) :
  resetMode w f = false -> stagingPath w f = (index_File w ++ "~")%string.
Proof. unfold stagingPath. intros ->. reflexivity. Qed.

Ltac open_shape :=
  unfold profPre, profPost, buildEvents, flushedEvents, createdEvents,
    statEvents, publishEvents in *.

(** Cutting a trace at an event that satisfies [Q]. *)
Lemma cut_app (Q : Event -> bool) (t1 t2 pre post : list Event) (ev : Event) :
  t1 ++ t2 = pre ++ ev :: post -> Q ev = true ->
  Forall (fun e => Q e = false) t1 ->
  exists pre', pre = t1 ++ pre' /\ t2 = pre' ++ ev :: post.
Proof.
  intros E He H. revert pre E.
  induction H as [| a t1 Ha _ IH]; intros pre E.
  - exists pre. auto.
  - destruct pre as [| y pre]; cbn in E; injection E as -> E.
    + congruence.
    + destruct (IH pre E) as (pre' & -> & E'). exists pre'. auto.
Qed.

Lemma cut_cons (Q : Event -> bool) (a : Event) (t pre post : list Event)
    (ev : Event) :
  a :: t = pre ++ ev :: post -> Q ev = true -> Q a = false ->
  exists pre', pre = a :: pre' /\ t = pre' ++ ev :: post.
Proof.
  intros E He Ha.
  apply (cut_app Q [a] t) in E; [exact E | exact He | repeat constructor].
  exact Ha.
Qed.

Lemma cut_here (Q : Event -> bool) (a : Event) (t pre post : list Event)
    (ev : Event) :
  a :: t = pre ++ ev :: post -> Q ev = true ->
  Forall (fun e => Q e = false) t ->
  Q a = true -> pre = [] /\ ev = a /\ post = t.
Proof.
  intros E He Ht _. apply (unique_cut Q [] t a); auto.
Qed.

(** Walks [E : trace = pre ++ ev :: post] forward over the events that fail
    [Q], up to the first one that does not; [leaf] proves [Q a = false] for
    an explicit event [a]. *)
Ltac cut_to_with Q E He leaf :=
  repeat
    (rewrite <- ?app_assoc in E; cbn [app] in E;
    match type of E with
    | (?t1 ++ ?t2) = _ ++ _ :: _ =>
        apply (cut_app Q) in E;
        [ let p := fresh "pre" in destruct E as (p & -> & E)
        | exact He
        | solve [trace_forall_with leaf] ]
    | (?a :: ?t) = _ ++ _ :: _ =>
        apply (cut_cons Q) in E;
        [ let p := fresh "pre" in destruct E as (p & -> & E)
        | exact He
        | solve [cbn; leaf] ]
    end).

Ltac cut_to Q E He := cut_to_with Q E He ltac:(auto).

(** Finds an explicit event in a trace. *)
Ltac find_event :=
  first [ apply in_eq
        | apply in_cons; find_event
        | apply in_or_app; left; find_event
        | apply in_or_app; right; find_event ].





(** ** The master artifact *)

Lemma master_neq_staging (m : string) : (m =? m ++ "~")%string = false.
Proof.
  apply String.eqb_neq. intros E. symmetry in E. revert E.
  apply append_nonempty_neq. discriminate.
Qed.

Lemma master_neq_merged (m : string) : (m =? (m ++ "~") ++ "~")%string = false.
Proof.
  apply String.eqb_neq. intros E. symmetry in E. revert E.
  rewrite app_assoc_string. apply append_nonempty_neq. discriminate.
Qed.

Ltac touch_leaf Hp :=
  rewrite ?master_neq_staging, ?master_neq_merged, ?Hp, ?String.eqb_refl;
  cbn; auto.

(** C1, as the code has it.  When reset is not requested, the master exists
    and the profile does not go to the master path, the only event of a run
    that creates, writes, renames or deletes the master path is the rename
    of the merged artifact onto it: it happens at most once, after the
    successful merge into the second temporary path, and nothing before or
    after it touches the master path.  When reset is requested or the
    master does not exist, the run renames nothing and the index writer
    works on the master path itself: a build that returns has created the
    artifact there and flushed it there. *)
Theorem incremental_master_replaced_by_rename_only (w : World) (f : Flags) :
  let master := index_File w in
  let staging := (master ++ "~")%string in
  let merged := (staging ++ "~")%string in
  (resetFlag f = false -> os_Stat w master = None ->
   cpuProfile f <> master ->
   forall pre ev post,
     trace (main w f) = pre ++ ev :: post -> touches master ev = true ->
     ev = EvOsRename merged master (os_Rename w merged master) /\
     In (EvMerge merged master staging true) pre /\
     Forall (fun e' => touches master e' = false) pre /\
     Forall (fun e' => touches master e' = false) post) /\
  (resetFlag f = true \/ os_Stat w master <> None ->
   Forall (fun ev => isRename ev = false /\ writerTargets master ev = true)
     (trace (main w f)) /\
   (listFlag f = false ->
    resetFlag f && (List.length (args f) =? 0)%nat = false ->
    outcome (main w f) = Ok tt ->
    In (EvIndexCreate master true) (trace (main w f)) /\
    In (EvFlush master true) (trace (main w f)))).
Proof.
  intros master staging merged. split.
  - intros Hr Hs Hp pre ev post E He.
    assert (Hp' : (master =? cpuProfile f)%string = false)
      by (apply String.eqb_neq; congruence).
    assert (Hmode : resetMode w f = false)
      by (apply resetMode_false_iff; auto).
    pose proof (stagingPath_incremental w f Hmode) as Hfile.
    revert E. run_cases w f; intros E; try congruence;
      try solve [ exfalso;
                  eapply (no_cut (touches master)); [| exact E | exact He];
                  open_shape; destruct (cpuProfile f =? "")%string;
                  trace_forall_with ltac:(touch_leaf Hp') ].
    assert (Hopn : Forall (fun e0 => touches master e0 = false) op).
    { destruct Hop as [[-> _] | [-> _]]; repeat constructor. }
    open_shape. rewrite Hmode, Hfile in E. fold master in E.
    destruct e; cbn [negb app] in E;
      try solve [ exfalso;
                  eapply (no_cut (touches master)); [| exact E | exact He];
                  destruct (cpuProfile f =? "")%string;
                  trace_forall_with ltac:(touch_leaf Hp') ].
    destruct (cpuProfile f =? "")%string.
    all: cut_to_with (touches master) E He ltac:(touch_leaf Hp').
    all: apply (cut_here (touches master)) in E;
      [ | exact He | trace_forall_with ltac:(touch_leaf Hp')
        | cbn; rewrite String.eqb_refl; apply orb_true_r ].
    all: destruct E as (-> & -> & ->).
    all: split; [reflexivity |].
    all: split; [find_event |].
    all: split; trace_forall_with ltac:(touch_leaf Hp').
  - intros Hmode. apply resetMode_true_iff in Hmode.
    pose proof (stagingPath_reset w f Hmode) as Hfile.
    run_cases w f; open_shape; rewrite ?Hmode, ?Hfile; fold master.
    + split; [trace_forall | congruence].
    + split; [trace_forall | congruence].
    + split; [trace_forall | congruence].
    + split; [destruct (cpuProfile f =? "")%string; trace_forall |].
      intros _ Hnr. rewrite Hreset, Hargs in Hnr. discriminate.
    + split; [destruct (cpuProfile f =? "")%string; trace_forall |].
      discriminate.
    + assert (Hopn : Forall (fun ev => isRename ev = false /\
                                       writerTargets master ev = true) op)
        by (destruct Hop as [[-> _] | [-> _]]; repeat constructor).
      split.
      * destruct (cpuProfile f =? "")%string; destruct e;
          try (specialize (Hmf eq_refl); congruence);
          cbn [negb app];
          trace_forall_with ltac:(auto using String.eqb_refl).
      * intros _ _. destruct e; cbn [buildOutcome]; try discriminate.
        intros _. cbn [negb app]. split; find_event.
Qed.

Lemma incremental_master_replaced_by_rename_only_witness :
  In (EvMerge "/home/u/.csearchindex~~" "/home/u/.csearchindex"
        "/home/u/.csearchindex~" true)
     (firstn 18 (trace (main healthyWorld (plainFlags ["src"])))) /\
  Forall (fun e' => touches "/home/u/.csearchindex" e' = false)
     (firstn 18 (trace (main healthyWorld (plainFlags ["src"])))).
Proof.
  assert (Hp : cpuProfile (plainFlags ["src"]) <> index_File healthyWorld)
    by discriminate.
  pose proof (proj1 (incremental_master_replaced_by_rename_only healthyWorld
                       (plainFlags ["src"])) eq_refl eq_refl Hp
                (firstn 18 (trace (main healthyWorld (plainFlags ["src"]))))
                (EvOsRename "/home/u/.csearchindex~~" "/home/u/.csearchindex"
                   None)
                [EvLog "done"] eq_refl eq_refl) as (_ & Hin & Hpre & _).
  split; [exact Hin | exact Hpre].
Defined.

(** C1 as stated fails: with [-reset] and a path, the writer is created at
    the master path and flushed to it, and no rename happens at all. *)
Lemma reset_mode_writes_master_in_place :
  In (EvIndexCreate "/home/u/.csearchindex" true)
     (trace (main healthyWorld (resetFlags ["src"]))) /\
  In (EvFlush "/home/u/.csearchindex" true)
     (trace (main healthyWorld (resetFlags ["src"]))) /\
  touches (index_File healthyWorld)
     (EvIndexCreate "/home/u/.csearchindex" true) = true /\
  isRename (EvIndexCreate "/home/u/.csearchindex" true) = false /\
  existsb isRename (trace (main healthyWorld (resetFlags ["src"]))) = false.
Proof. vm_compute. intuition. Qed.

(** ** Merge and publish *)

(** C3, as the code has it.  A successful merge writes to the staging path
    plus ["~"], which differs from the master path and from the staging
    path; it comes after the successful flush of the staging artifact; the
    staging artifact is then deleted and only after that the merged artifact
    is renamed onto the master path; the run performs no other merge,
    delete or rename. *)
Theorem staging_deleted_between_merge_and_rename
    (w : World) (f : Flags) (d s1 s2 : string) :
  let master := index_File w in
  let staging := (master ++ "~")%string in
  let merged := (staging ++ "~")%string in
  In (EvMerge d s1 s2 true) (trace (main w f)) ->
  d = merged /\ s1 = master /\ s2 = staging /\
  merged <> master /\ merged <> staging /\
  exists pre post,
    trace (main w f) =
      pre ++
      [ EvMerge merged master staging true;
        EvOsRemove staging (os_Remove w staging);
        EvOsRename merged master (os_Rename w merged master) ] ++ post /\
    In (EvFlush staging true) pre /\
    Forall (fun e' => isPublishStep e' = false) pre /\
    Forall (fun e' => isPublishStep e' = false) post.
Proof.
  intros master staging merged Hin.
  apply in_split in Hin. destruct Hin as (pre & post & E).
  assert (He : isMergeOk (EvMerge d s1 s2 true) = true) by reflexivity.
  revert E.
  run_cases w f; intros E;
    try solve [ exfalso; eapply (no_cut isMergeOk); [| exact E | exact He];
                open_shape; destruct (cpuProfile f =? "")%string;
                trace_forall ].
  assert (Hopn : forall Q : Event -> bool,
             Q (EvIndexOpen master true) = false ->
             Forall (fun e0 => Q e0 = false) op).
  { intros Q HQ. destruct Hop as [[-> _] | [-> _]]; repeat constructor.
    exact HQ. }
  pose proof (Hopn isMergeOk eq_refl) as Hop1.
  pose proof (Hopn isPublishStep eq_refl) as Hop2.
  open_shape.
  destruct (resetMode w f) eqn:Hmode;
    [ pose proof (stagingPath_reset w f Hmode) as Hfile
    | pose proof (stagingPath_incremental w f Hmode) as Hfile ];
    rewrite Hfile in E |- *;
    destruct e; cbn [negb app] in E |- *;
    try solve [ exfalso; eapply (no_cut isMergeOk); [| exact E | exact He];
                destruct (cpuProfile f =? "")%string; trace_forall ].
  pose proof E as E0.
  destruct (cpuProfile f =? "")%string.
  all: cut_to isMergeOk E He.
  all: apply (cut_here isMergeOk) in E;
    [ | exact He | trace_forall | reflexivity ].
  all: destruct E as (-> & [= -> -> ->] & ->).
  all: split; [reflexivity |].
  all: split; [reflexivity |].
  all: split; [reflexivity |].
  all: split; [unfold merged, staging; rewrite app_assoc_string;
               apply append_nonempty_neq; discriminate |].
  all: split; [apply append_nonempty_neq; discriminate |].
  all: rewrite E0; eexists; eexists.
  all: split; [reflexivity |].
  all: split; [find_event |].
  all: split; trace_forall.
Qed.

Lemma staging_deleted_between_merge_and_rename_witness :
  exists pre post,
    trace (main healthyWorld (plainFlags ["src"])) =
      pre ++
      [ EvMerge "/home/u/.csearchindex~~" "/home/u/.csearchindex"
          "/home/u/.csearchindex~" true;
        EvOsRemove "/home/u/.csearchindex~" None;
        EvOsRename "/home/u/.csearchindex~~" "/home/u/.csearchindex" None ] ++
      post /\
    In (EvFlush "/home/u/.csearchindex~" true) pre.
Proof.
  assert (Hin : In (EvMerge "/home/u/.csearchindex~~" "/home/u/.csearchindex"
                      "/home/u/.csearchindex~" true)
                   (trace (main healthyWorld (plainFlags ["src"]))))
    by (vm_compute; intuition).
  destruct (staging_deleted_between_merge_and_rename healthyWorld
              (plainFlags ["src"]) _ _ _ Hin)
    as (_ & _ & _ & _ & _ & pre & post & E & Hflush & _).
  exists pre, post. split; [exact E | exact Hflush].
Defined.

(** C3 as stated fails: the staging artifact is deleted before the rename,
    not after it. *)
Lemma staging_deleted_before_rename :
  indexOf isRemove (trace (main healthyWorld (plainFlags ["src"]))) = Some 17 /\
  indexOf isRename (trace (main healthyWorld (plainFlags ["src"]))) = Some 18 /\
  nth_error (trace (main healthyWorld (plainFlags ["src"]))) 17 =
    Some (EvOsRemove "/home/u/.csearchindex~" None) /\
  nth_error (trace (main healthyWorld (plainFlags ["src"]))) 18 =
    Some (EvOsRename "/home/u/.csearchindex~~" "/home/u/.csearchindex" None).
Proof. repeat split; vm_compute; reflexivity. Qed.

(** ** Failures while finalizing, merging and publishing *)

(** Every event of kind [Q] in the trace of [main w f] sits in a build that
    has got as far as that event. *)
Ltac occurrence_cases w f Q Hin :=
  let pre := fresh "pre" in
  let post := fresh "post" in
  let E := fresh "E" in
  apply in_split in Hin; destruct Hin as (pre & post & E);
  revert E;
  run_cases w f; intros E;
  try solve [ exfalso; eapply (no_cut Q); [| exact E | reflexivity];
              open_shape; destruct (cpuProfile f =? "")%string;
              trace_forall ];
  open_shape;
  match goal with
  | Hop : ?o = [] /\ _ \/ _ |- _ =>
      assert (Forall (fun e0 => Q e0 = false) o)
        by (destruct Hop as [[-> _] | [-> _]]; repeat constructor)
  end;
  match goal with
  | e : BuildEnd |- _ =>
      destruct e; cbn [negb app] in E |- *;
      destruct (resetMode w f) eqn:Hmode; cbn [negb app] in E |- *;
      try solve [ exfalso; eapply (no_cut Q); [| exact E | reflexivity];
                  destruct (cpuProfile f =? "")%string; trace_forall ]
  end.

(** C5, as the code has it.  A failed flush and a failed merge end the run
    with [os.Exit(1)]; after a failed merge, and after a failed flush in
    incremental mode, no event of the run has touched the master path
    (provided the profile does not go there).  The results of deleting the
    staging artifact and of renaming the merged artifact are not looked at:
    after a successful merge the run performs both, logs [done] and
    returns normally, whatever they answer. *)
Theorem flush_and_merge_failures_fatal_publish_errors_ignored
    (w : World) (f : Flags) :
  let master := index_File w in
  let staging := (master ++ "~")%string in
  let merged := (staging ++ "~")%string in
  let t := trace (main w f) in
  (forall file, In (EvFlush file false) t ->
     outcome (main w f) = Exit 1 /\
     (resetFlag f = false -> os_Stat w master = None ->
      cpuProfile f <> master ->
      Forall (fun ev => touches master ev = false) t)) /\
  (forall d s1 s2, In (EvMerge d s1 s2 false) t ->
     outcome (main w f) = Exit 1 /\
     (cpuProfile f <> master ->
      Forall (fun ev => touches master ev = false) t)) /\
  (forall d s1 s2, In (EvMerge d s1 s2 true) t ->
     outcome (main w f) = Ok tt /\
     In (EvOsRemove staging (os_Remove w staging)) t /\
     In (EvOsRename merged master (os_Rename w merged master)) t /\
     In (EvLog "done") t).
Proof.
  intros master staging merged t. subst t.
  split; [| split].
  - intros file Hin.
    occurrence_cases w f isFlushFailed Hin.
    all: split; [reflexivity |].
    all: intros Hr Hs Hp.
    all: try (assert (resetMode w f = false)
                by (apply resetMode_false_iff; auto); congruence).
    all: assert (Hp' : (master =? cpuProfile f)%string = false)
           by (apply String.eqb_neq; congruence).
    all: rewrite (stagingPath_incremental w f Hmode).
    all: destruct (cpuProfile f =? "")%string;
         trace_forall_with ltac:(touch_leaf Hp').
    all: destruct Hop as [[-> _] | [-> _]]; repeat constructor.
  - intros d s1 s2 Hin.
    occurrence_cases w f isMergeFailed Hin.
    all: try (specialize (Hmf eq_refl); congruence).
    all: split; [reflexivity |].
    all: intros Hp.
    all: assert (Hp' : (master =? cpuProfile f)%string = false)
           by (apply String.eqb_neq; congruence).
    all: rewrite (stagingPath_incremental w f Hmode).
    all: destruct (cpuProfile f =? "")%string;
         trace_forall_with ltac:(touch_leaf Hp').
    all: destruct Hop as [[-> _] | [-> _]]; repeat constructor.
  - intros d s1 s2 Hin.
    occurrence_cases w f isMergeOk Hin.
    all: rewrite (stagingPath_incremental w f Hmode).
    all: split; [reflexivity |].
    all: repeat split; find_event.
Qed.

Lemma flush_and_merge_failures_fatal_publish_errors_ignored_witness :
  outcome (main (exampleWorld true false true None None) (plainFlags ["src"])) =
    Exit 1 /\
  outcome (main (exampleWorld true true false None None) (plainFlags ["src"])) =
    Exit 1 /\
  outcome (main (exampleWorld true true true (Some "remove: permission denied")
                   (Some "rename: permission denied")) (plainFlags ["src"])) =
    Ok tt.
Proof.
  split; [| split].
  - pose proof (flush_and_merge_failures_fatal_publish_errors_ignored
                  (exampleWorld true false true None None)
                  (plainFlags ["src"])) as (Hflush & _ & _).
    refine (proj1 (Hflush "/home/u/.csearchindex~" _)).
    vm_compute. intuition.
  - pose proof (flush_and_merge_failures_fatal_publish_errors_ignored
                  (exampleWorld true true false None None)
                  (plainFlags ["src"])) as (_ & Hmerge & _).
    refine (proj1 (Hmerge "/home/u/.csearchindex~~" "/home/u/.csearchindex"
                     "/home/u/.csearchindex~" _)).
    vm_compute. intuition.
  - pose proof (flush_and_merge_failures_fatal_publish_errors_ignored
                  (exampleWorld true true true
                     (Some "remove: permission denied")
                     (Some "rename: permission denied"))
                  (plainFlags ["src"])) as (_ & _ & Hok).
    refine (proj1 (Hok "/home/u/.csearchindex~~" "/home/u/.csearchindex"
                     "/home/u/.csearchindex~" _)).
    vm_compute. intuition.
Defined.

(** C5 as stated fails: when deleting the staging artifact and renaming the
    merged artifact both fail, the run still logs [done] and returns with
    status 0. *)
Lemma publish_errors_not_fatal :
  outcome (main (exampleWorld true true true (Some "remove: permission denied")
                   (Some "rename: permission denied")) (plainFlags ["src"])) =
    Ok tt /\
  exitCode (outcome (main (exampleWorld true true true
                             (Some "remove: permission denied")
                             (Some "rename: permission denied"))
                       (plainFlags ["src"]))) = 0%Z /\
  nth_error (trace (main (exampleWorld true true true
                            (Some "remove: permission denied")
                            (Some "rename: permission denied"))
                      (plainFlags ["src"]))) 18 =
    Some (EvOsRename "/home/u/.csearchindex~~" "/home/u/.csearchindex"
            (Some "rename: permission denied")) /\
  nth_error (trace (main (exampleWorld true true true
                            (Some "remove: permission denied")
                            (Some "rename: permission denied"))
                      (plainFlags ["src"]))) 19 = Some (EvLog "done").
Proof. repeat split; vm_compute; reflexivity. Qed.

(** ** CPU profiling *)

(** C9, as the code has it.  With [-cpuprofile]: a [-list] run never
    profiles; any other run first creates the profile file and, if that
    works, starts profiling before all the rest; profiling is stopped and
    the file closed, as the last two events, when [main] returns or panics;
    when the process exits through [os.Exit] profiling is never stopped;
    when the profile file cannot be created the run logs the error and
    exits with status 1 without having started a profile. *)
Theorem profiling_wraps_all_but_list_and_exit (w : World) (f : Flags) :
  cpuProfile f <> "" ->
  let t := trace (main w f) in
  (listFlag f = true -> Forall (fun ev => isProfiling ev = false) t) /\
  (listFlag f = false -> os_Create w (cpuProfile f) = None ->
   exists body,
     Forall (fun ev => isProfiling ev = false) body /\
     match outcome (main w f) with
     | Exit _ =>
         t = EvOsCreate (cpuProfile f) None :: EvStartCPUProfile :: body
     | _ =>
         t = EvOsCreate (cpuProfile f) None :: EvStartCPUProfile :: body ++
             [EvStopCPUProfile; EvFileClose (cpuProfile f)]
     end) /\
  (forall err, listFlag f = false -> os_Create w (cpuProfile f) = Some err ->
   t = [EvOsCreate (cpuProfile f) (Some err); EvLog err] /\
   outcome (main w f) = Exit 1).
Proof.
  intros Hp t. subst t.
  assert (Hp' : (cpuProfile f =? "")%string = false)
    by (apply String.eqb_neq; exact Hp).
  run_cases w f;
    (split; [intros Hl | split; [intros Hl Hc | intros err' Hl Hc]]);
    try congruence; try solve [trace_forall];
    try solve [destruct Hprof; congruence].
  - (* the profile file cannot be created *)
    assert (err' = err) as -> by congruence. split; reflexivity.
  - (* reset without paths *)
    open_shape. rewrite Hp'. cbn [app].
    exists [EvOsRemove (index_File w) (os_Remove w (index_File w))].
    split; [| reflexivity]. trace_forall.
  - (* the open fails *)
    open_shape. rewrite Hp'. cbn [app].
    exists [EvIndexOpen (index_File w) false].
    split; [| reflexivity]. trace_forall.
  - (* a build *)
    assert (Hopn : Forall (fun e0 => isProfiling e0 = false) op)
      by (destruct Hop as [[-> _] | [-> _]]; repeat constructor).
    unfold profPre, profPost. rewrite Hp'. cbn [app].
    exists (op ++ tr ++ buildEvents w f roots tc tw e).
    split.
    + open_shape. destruct e; destruct (resetMode w f); cbn [negb app];
        trace_forall.
    + destruct e; cbn [buildOutcome]; rewrite ?app_nil_r; reflexivity.
Qed.

Lemma profiling_wraps_all_but_list_and_exit_witness :
  Forall (fun ev => isProfiling ev = false)
    (trace (main healthyWorld (profileFlags true []))) /\
  exists body,
    trace (main healthyWorld (profileFlags false ["src"])) =
      EvOsCreate "/tmp/cindex.prof" None :: EvStartCPUProfile :: body ++
      [EvStopCPUProfile; EvFileClose "/tmp/cindex.prof"].
Proof.
  assert (Hp : cpuProfile (profileFlags true []) <> "") by discriminate.
  split.
  - exact (proj1 (profiling_wraps_all_but_list_and_exit healthyWorld
                    (profileFlags true []) Hp) eq_refl).
  - destruct (proj1 (proj2 (profiling_wraps_all_but_list_and_exit healthyWorld
                       (profileFlags false ["src"]) Hp)) eq_refl eq_refl)
      as (body & _ & E).
    exists body. exact E.
Defined.

(** C9 as stated fails: with [-list] profiling never starts, and when the
    index library exits the process on a failed flush a started profile is
    never stopped. *)
Lemma profiling_skips_list_and_exit :
  existsb isStartProfile (trace (main healthyWorld (profileFlags true []))) =
    false /\
  outcome (main healthyWorld (profileFlags true [])) = Ok tt /\
  existsb isStartProfile
    (trace (main (exampleWorld true false true None None)
              (profileFlags false ["src"]))) = true /\
  existsb isStopProfile
    (trace (main (exampleWorld true false true None None)
              (profileFlags false ["src"]))) = false /\
  outcome (main (exampleWorld true false true None None)
             (profileFlags false ["src"])) = Exit 1.
Proof. repeat split; vm_compute; reflexivity. Qed.

(** ** Pattern compilation *)

(** A failed compilation ends with the failing pattern. *)
Lemma compilePatterns_panic_last (w : World) (patterns : list string)
    (msg : string) :
  outcome (compilePatterns w patterns) = Panic msg ->
  exists tc p,
    In p patterns /\ regexp_Compile w p = inr msg /\
    trace (compilePatterns w patterns) = tc ++ [EvCompile p (Some msg)].
Proof.
  induction patterns as [| q rest IH]; cbn [compilePatterns]; [discriminate |].
  destruct (regexp_Compile w q) as [r | err] eqn:Eq_.
  - rewrite bind_emit. cbn [trace outcome fst snd].
    destruct (bind_cases (compilePatterns w rest) (fun rs0 => ret (r :: rs0)))
      as [(a & Ha & E) | [(m & Hm & E) | (c & Hc & E)]];
      rewrite E; cbn [trace outcome fst snd]; try discriminate.
    intros [= ->].
    destruct (IH Hm) as (tc & p & Hin & Hp & Ht).
    exists (EvCompile q None :: tc), p.
    split; [right; exact Hin |]. split; [exact Hp |].
    rewrite Ht. reflexivity.
  - rewrite bind_emit. cbn. intros [= ->].
    exists [], q. split; [left; reflexivity |]. split; [exact Eq_ | reflexivity].
Qed.

(** With file info at hand the callback returns: matching cannot fail. *)
Lemma walkFn_returns (excludeRegexp : list Regexp) (verbose : bool)
    (path : string) (fi : FileInfo) (err : error) :
  exists r, outcome (walkFn excludeRegexp verbose path (Some fi) err) = Ok r.
Proof.
  unfold walkFn, info_IsDir, log_Printf. rewrite bind_ret.
  destruct (IsDir fi && anyRegexpMatches excludeRegexp path).
  - destruct verbose; eexists; reflexivity.
  - destruct (negb (snd (Split path) =? "")%string && hiddenElem (snd (Split path))).
    + rewrite bind_ret. destruct (IsDir fi); eexists; reflexivity.
    + destruct err; [eexists; reflexivity |].
      destruct (Z.land (Mode fi) ModeType =? 0)%Z; eexists; reflexivity.
Qed.

(** C4, as the code has it.  In a build run that gets as far as the mode
    check (no [-list], not [-reset] without paths, the profile file, if
    any, could be created, the roots could be read), a malformed pattern
    makes the run panic with the compile error of a pattern of the set
    (exit status 2).  The panic comes after the [os.Stat] of the master
    (and after whatever profile creation, index open and path resolution
    the run did), and the run performs no step of building or publishing an
    index.  A [-list] run and a [-reset] run without paths compile no
    pattern and never panic.  With compiled patterns the walk callback
    returns for every entry that has file info: matching itself cannot
    fail. *)
Theorem malformed_pattern_panics_before_index_is_created
    (w : World) (f : Flags) :
  (listFlag f = false ->
   resetFlag f && (List.length (args f) =? 0)%nat = false ->
   cpuProfile f = "" \/ os_Create w (cpuProfile f) = None ->
   (args f = [] -> index_Open w (index_File w) <> None) ->
   (exists p err, In p (excludePatterns f) /\ regexp_Compile w p = inr err) ->
   exists msg p pre tc,
     In p (excludePatterns f) /\ regexp_Compile w p = inr msg /\
     outcome (main w f) = Panic msg /\
     exitCode (outcome (main w f)) = 2%Z /\
     trace (main w f) =
       pre ++ EvOsStat (index_File w) (os_Stat w (index_File w)) ::
       tc ++ [EvCompile p (Some msg)] ++ profPost f (Panic msg) /\
     Forall (fun ev => isBuildStep ev = false /\ isPublishStep ev = false)
       (trace (main w f))) /\
  (listFlag f = true \/ resetFlag f = true /\ args f = [] ->
   Forall (fun ev => isCompile ev = false) (trace (main w f)) /\
   forall msg, outcome (main w f) <> Panic msg) /\
  (forall excludeRegexp verbose path fi err,
     exists r,
       outcome (walkFn excludeRegexp verbose path (Some fi) err) = Ok r).
Proof.
  split; [| split; [| intros; apply walkFn_returns]].
  2: { intros Hno.
       run_cases w f;
         try solve [ split; [open_shape;
                             destruct (cpuProfile f =? "")%string;
                             trace_forall | intros; discriminate] ].
       - split; [| intros; discriminate].
         constructor; [reflexivity |]. apply Forall_forall. intros ev Hin.
         apply in_map_iff in Hin. destruct Hin as (arg & <- & _). reflexivity.
       - destruct Hno as [? | [? Ha]]; [congruence |].
         destruct Hop as [[_ Hne] | (_ & _ & ? & _)]; congruence. }
  intros Hl Hnr Hprof0 Hopen0 Hbadpat.
  apply compilePatterns_malformed in Hbadpat. destruct Hbadpat as [err0 Herr].
  run_cases w f; try congruence.
  - destruct Hprof0; congruence.
  - rewrite Hreset, Hargs in Hnr. discriminate.
  - exfalso. apply Hopen0; assumption.
  - assert (Hopn : Forall (fun e0 => isBuildStep e0 = false /\
                                     isPublishStep e0 = false) op)
      by (destruct Hop as [[-> _] | [-> _]]; repeat constructor).
    destruct e as [msg | | msg | | |];
      try (destruct Hgood as [rs Hrs]; [discriminate | congruence]).
    destruct (Hbad msg eq_refl) as [Hmsg ->].
    destruct (compilePatterns_panic_last w _ msg Hmsg) as (tc & p & Hin & Hp & Ht).
    exists msg, p, (profPre f ++ op ++ tr), tc.
    split; [exact Hin |]. split; [exact Hp |].
    split; [reflexivity |]. split; [reflexivity |].
    split.
    + cbn [buildEvents buildOutcome]. unfold statEvents. rewrite Ht.
      rewrite <- !app_assoc. cbn [app]. rewrite <- !app_assoc. reflexivity.
    + open_shape. destruct (cpuProfile f =? "")%string; trace_forall.
Qed.

Lemma malformed_pattern_panics_before_index_is_created_witness :
  exists msg,
    outcome (main healthyWorld (excludeFlags false "" ["("] ["src"])) =
      Panic msg.
Proof.
  assert (Hopen : args (excludeFlags false "" ["("] ["src"]) = [] ->
                  index_Open healthyWorld (index_File healthyWorld) <> None)
    by discriminate.
  assert (Hbad : exists p err,
             In p (excludePatterns (excludeFlags false "" ["("] ["src"])) /\
             regexp_Compile healthyWorld p = inr err).
  { exists "(", "regexp: missing closing )". split; [| reflexivity].
    vm_compute. intuition. }
  destruct (proj1 (malformed_pattern_panics_before_index_is_created
                     healthyWorld (excludeFlags false "" ["("] ["src"]))
              eq_refl eq_refl (or_introl eq_refl) Hopen Hbad)
    as (msg & _ & _ & _ & _ & _ & Hout & _).
  exists msg. exact Hout.
Defined.

(** C4 as stated fails: with [-list] a malformed pattern is never compiled
    and the run succeeds; in a build run the profile file has been created
    and the master has been looked up before the pattern is rejected. *)
Lemma malformed_pattern_not_checked_first :
  outcome (main healthyWorld (excludeFlags true "" ["("] [])) = Ok tt /\
  nth_error (trace (main healthyWorld
                      (excludeFlags false "/tmp/cindex.prof" ["("] ["src"]))) 0 =
    Some (EvOsCreate "/tmp/cindex.prof" None) /\
  nth_error (trace (main healthyWorld
                      (excludeFlags false "/tmp/cindex.prof" ["("] ["src"]))) 3 =
    Some (EvOsStat "/home/u/.csearchindex" None) /\
  indexOf isCompileFailed
    (trace (main healthyWorld
              (excludeFlags false "/tmp/cindex.prof" ["("] ["src"]))) =
    Some 10.
Proof. repeat split; vm_compute; reflexivity. Qed.

(** ** Traversal errors *)

(** C2 fails on the code.  Called with a traversal error and no file info,
    the callback calls [info.IsDir()] on the nil interface before it looks
    at the error: it panics, whatever the path and the patterns are.  So a
    root that cannot be [Lstat]ed aborts the run with exit status 2 before
    anything is flushed. *)
Theorem walk_callback_faults_without_file_info :
  (forall excludeRegexp verbose path err,
     walkFn excludeRegexp verbose path None err =
     ([], Panic "runtime error: invalid memory address or nil pointer dereference")) /\
  outcome (main healthyWorld (plainFlags ["gone"])) =
    Panic "runtime error: invalid memory address or nil pointer dereference" /\
  exitCode (outcome (main healthyWorld (plainFlags ["gone"]))) = 2%Z /\
  existsb isFlush (trace (main healthyWorld (plainFlags ["gone"]))) = false.
Proof.
  split; [intros; reflexivity |].
  repeat split; vm_compute; reflexivity.
Qed.

(** A directory that cannot be read comes with its file info: the error is
    logged and the walk goes on. *)
Lemma unreadable_directory_logged (excludeRegexp : list Regexp)
    (verbose : bool) (path name : string) (fi : FileInfo) (e : string) :
  finalComponent path name -> hiddenElem name = false ->
  IsDir fi && anyRegexpMatches excludeRegexp path = false ->
  walkFn excludeRegexp verbose path (Some fi) (Some e) =
  ([EvLog (path ++ ": " ++ e)], Ok WalkNil).
Proof.
  intros Hfinal Hh Hrule. apply Split_finalComponent in Hfinal.
  unfold walkFn, info_IsDir. rewrite bind_ret, Hrule, Hfinal, Hh.
  rewrite andb_false_r. reflexivity.
Qed.

(** ** Duplicate roots *)

(** C8 as stated fails: a path given twice stays twice in the resolved
    list, is recorded twice and is walked twice. *)
Lemma resolver_keeps_duplicates :
  outcome (resolveArgs healthyWorld ["src"; "src"]) =
    Ok ["/home/u/src"; "/home/u/src"] /\
  noAdjacentDup ["/home/u/src"; "/home/u/src"] = false /\
  nth_error (trace (main healthyWorld (plainFlags ["src"; "src"]))) 10 =
    Some (EvAddPaths ["/home/u/src"; "/home/u/src"]) /\
  List.length (filter isWalk
                 (trace (main healthyWorld (plainFlags ["src"; "src"])))) = 2.
Proof. repeat split; vm_compute; reflexivity. Qed.

Example unresolved_path_dropped :
  resolveArgs lostCwdWorld ["/home/u/src"; "docs"] =
  ([ EvAbs "/home/u/src" None;
     EvAbs "docs" (Some "getwd: no such file or directory");
     EvLog "docs: getwd: no such file or directory" ],
   Ok ["/home/u/src"]).
Proof. vm_compute. reflexivity. Qed.

(** ** The roots the walker gets *)

(** C8, as the code has it.  For every argument list the resolver returns
    (it never aborts) a list that is sorted for Go's string order, holds no
    empty entry, and is a rearrangement of the non-empty resolved paths, so
    equal paths are all kept; every argument that fails to resolve is logged
    as [arg: err].  The roots a run records and walks are the resolver's
    output for the command-line paths or, without any, for the paths read
    from the master index. *)
Theorem resolver_sorted_without_dedup (w : World) :
  (forall args, exists roots,
     outcome (resolveArgs w args) = Ok roots /\
     Sorted lexLe roots /\
     ~ In "" roots /\
     Permutation roots (filter nonEmpty (map (absResult w) args)) /\
     (forall arg err, In arg args -> filepath_Abs w arg = inr err ->
        In (EvLog (arg ++ ": " ++ err)) (trace (resolveArgs w args)))) /\
  (forall f roots, In (EvAddPaths roots) (trace (main w f)) ->
     exists args0,
       (args f <> [] /\ args0 = args f \/
        args f = [] /\ index_Open w (index_File w) = Some args0) /\
       outcome (resolveArgs w args0) = Ok roots).
Proof.
  split.
  - intros args. rewrite resolveArgs_eq. cbn [outcome trace fst snd].
    exists (dropEmpty (sort_Strings (map (absResult w) args))).
    pose proof (sort_Strings_sorted (map (absResult w) args)) as Hs.
    split; [reflexivity |]. split; [apply dropEmpty_sorted, Hs |].
    rewrite (dropEmpty_filter _ Hs). split; [| split].
    + intros Hin. apply filter_In in Hin. destruct Hin as [_ H]. discriminate.
    + apply filter_perm. symmetry. apply sort_Strings_perm.
    + intros arg err Hin Herr. apply in_flat_map. exists arg.
      split; [exact Hin |]. unfold absEvents. rewrite Herr. right; left.
      reflexivity.
  - intros f roots' Hin. revert Hin.
    set (P := fun l : list string =>
                exists args0,
                  (args f <> [] /\ args0 = args f \/
                   args f = [] /\ index_Open w (index_File w) = Some args0) /\
                  outcome (resolveArgs w args0) = Ok l).
    enough (HF : Forall (fun ev => forall l, ev = EvAddPaths l -> P l)
                   (trace (main w f))).
    { intros Hin. rewrite Forall_forall in HF.
      exact (HF _ Hin roots' eq_refl). }
    run_cases w f; open_shape;
      try solve [ destruct (cpuProfile f =? "")%string;
                  trace_forall_with ltac:(intros; discriminate) ].
    assert (Hopn : Forall (fun ev => forall l, ev = EvAddPaths l -> P l) op)
      by (destruct Hop as [[-> _] | [-> _]]; repeat constructor;
          intros; discriminate).
    destruct (cpuProfile f =? "")%string; destruct e;
      destruct (resetMode w f); cbn [negb app];
      trace_forall_with
        ltac:(first [ solve [intros; discriminate]
                    | intros ? [= <-]; exact Hroots ]).
Qed.

Lemma resolver_sorted_without_dedup_witness :
  exists args0,
    outcome (resolveArgs healthyWorld args0) =
      Ok ["/home/u/src"; "/home/u/src"].
Proof.
  assert (Hin : In (EvAddPaths ["/home/u/src"; "/home/u/src"])
                   (trace (main healthyWorld (plainFlags ["src"; "src"]))))
    by (vm_compute; intuition).
  destruct (proj2 (resolver_sorted_without_dedup healthyWorld)
              (plainFlags ["src"; "src"]) _ Hin) as (args0 & _ & Hout).
  exists args0. exact Hout.
Defined.

(** * Further properties *)

(** ** The exclude flag *)

Lemma flagSetAll_eq (a values : list string) :
  flagSetAll a values = (a ++ values, None).
Proof.
  revert a. induction values as [| v rest IH]; intros a; cbn [flagSetAll].
  - rewrite app_nil_r. reflexivity.
  - unfold arrayStringFlags_Set. rewrite IH, <- app_assoc. reflexivity.
Qed.

(** X1.  Parsing the [-exclude] flags never fails and leaves the six
    built-in patterns, in their order, followed by the given values in
    command-line order: this is the pattern set [main] compiles. *)
Theorem exclude_flags_append_to_builtins (f : Flags) :
  parseExcludes (excludeFlag f) = (excludePatterns f, None) /\
  firstn 6 (excludePatterns f) = builtinExcludes /\
  skipn 6 (excludePatterns f) = excludeFlag f.
Proof.
  unfold parseExcludes, excludePatterns. rewrite flagSetAll_eq.
  repeat split.
Qed.

Lemma concat_snoc (sep : string) (a : list string) (v : string) :
  a <> [] ->
  String.concat sep (a ++ [v]) = (String.concat sep a ++ sep ++ v)%string.
Proof.
  induction a as [| x rest IH]; intros Hne; [congruence |].
  destruct rest as [| y rest'].
  - cbn. reflexivity.
  - change (String.concat sep ((x :: y :: rest') ++ [v]))
      with (x ++ sep ++ String.concat sep ((y :: rest') ++ [v]))%string.
    rewrite IH by discriminate.
    change (String.concat sep (x :: y :: rest'))
      with (x ++ sep ++ String.concat sep (y :: rest'))%string.
    rewrite !app_assoc_string. reflexivity.
Qed.

(** X2.  [String] after [Set]: on a non-empty flag value, setting [v] turns
    the rendering [[... last]] into [[... last v]]; on the empty one it
    gives [[v]]. *)
Theorem flag_string_after_set (a : list string) (v : string) :
  arrayStringFlags_String (fst (arrayStringFlags_Set a v)) =
  match a with
  | [] => ("[" ++ v ++ "]")%string
  | _ => ("[" ++ String.concat " " a ++ " " ++ v ++ "]")%string
  end.
Proof.
  unfold arrayStringFlags_String, arrayStringFlags_Set. cbn [fst].
  destruct a as [| x rest]; [reflexivity |].
  rewrite concat_snoc by discriminate.
  rewrite !app_assoc_string. reflexivity.
Qed.

(** ** [filepath.Split] on every path *)

Lemma substring_prefix_app (s1 s2 : string) :
  substring 0 (String.length s1) (s1 ++ s2)%string = s1.
Proof.
  induction s1 as [| c s1 IH]; cbn.
  - destruct s2; reflexivity.
  - rewrite IH. reflexivity.
Qed.

(** Every path splits into a directory part that is empty or ends with a
    separator and a final component without separator. *)
Lemma path_decomposition (path : string) :
  exists dir name,
    path = (dir ++ name)%string /\ noSeparator name = true /\
    (dir = "" \/ exists parent, dir = (parent ++ "/")%string).
Proof.
  induction path as [| c rest (dir & name & E & Hn & Hd)].
  - exists "", "". repeat split. left. reflexivity.
  - destruct Hd as [-> | (parent & ->)].
    + cbn in E. subst rest.
      destruct (IsPathSeparator c) eqn:Hc.
      * exists (String c ""), name. unfold IsPathSeparator in Hc.
        apply Ascii.eqb_eq in Hc. subst c.
        repeat split; [exact Hn |]. right. exists "". reflexivity.
      * exists "", (String c name). repeat split; [| left; reflexivity].
        cbn. rewrite Hc, Hn. reflexivity.
    + exists (String c (parent ++ "/")), name. subst rest.
      repeat split; [exact Hn |]. right. exists (String c parent). reflexivity.
Qed.

Lemma Split_decomposed (dir name : string) :
  noSeparator name = true ->
  (dir = "" \/ exists parent, dir = (parent ++ "/")%string) ->
  Split (dir ++ name) = (dir, name).
Proof.
  intros Hn Hd. unfold Split.
  pose proof (scanBack_name dir name (String.length name) Hn (le_n _)) as E.
  rewrite <- length_app in E. rewrite E.
  assert (Hk : scanBack (dir ++ name) (String.length dir) = String.length dir).
  { destruct Hd as [-> | (parent & ->)]; [reflexivity | apply scanBack_sep]. }
  rewrite Hk, length_app.
  replace (String.length dir + String.length name - String.length dir)
    with (String.length name) by lia.
  rewrite substring_prefix_app, substring_app_suffix. reflexivity.
Qed.

(** X3.  [Split] cuts every path right after its last separator: the two
    parts put together give the path back, the second part holds no
    separator, and the first part is empty or ends with a separator. *)
Theorem Split_roundtrip (path : string) :
  (fst (Split path) ++ snd (Split path))%string = path /\
  noSeparator (snd (Split path)) = true /\
  (fst (Split path) = "" \/ endsWith "/" (fst (Split path))).
Proof.
  destruct (path_decomposition path) as (dir & name & -> & Hn & Hd).
  rewrite (Split_decomposed dir name Hn Hd). cbn [fst snd].
  split; [reflexivity |]. split; [exact Hn |].
  destruct Hd as [-> | (parent & ->)]; [left; reflexivity |].
  right. exists parent. reflexivity.
Qed.

Lemma Split_is_finalComponent (path : string) :
  finalComponent path (snd (Split path)).
Proof.
  destruct (path_decomposition path) as (dir & name & -> & Hn & Hd).
  rewrite (Split_decomposed dir name Hn Hd). cbn [snd].
  split; [exact Hn |].
  destruct Hd as [-> | (parent & ->)]; [left; reflexivity |].
  right. exists parent. rewrite app_assoc_string. reflexivity.
Qed.

Lemma get_last (s : string) (n : nat) (c : ascii) :
  String.length s = S n -> String.get n s = Some c ->
  exists front, s = (front ++ String c "")%string.
Proof.
  revert n. induction s as [| a s IH]; intros n Hl Hg; [discriminate |].
  cbn in Hl. injection Hl as Hl. destruct n as [| n'].
  - destruct s; [| discriminate]. cbn in Hg. injection Hg as ->.
    exists "". reflexivity.
  - cbn in Hg. destruct (IH n' Hl Hg) as (front & ->).
    exists (String a front). reflexivity.
Qed.

Lemma last_byte (s : string) (c : ascii) :
  String.get (String.length s - 1) s = Some c ->
  exists front, s = (front ++ String c "")%string.
Proof.
  intros H. destruct s as [| a s]; [discriminate |].
  apply (get_last _ (String.length s)); [reflexivity |].
  cbn [String.length] in H. rewrite Nat.sub_succ, Nat.sub_0_r in H. exact H.
Qed.

Lemma byteIs_get0 (s : string) (c : ascii) :
  byteIs (String.get 0 s) c = true -> beginsWith c s.
Proof.
  destruct s as [| a s]; [discriminate |]. cbn.
  intros H. apply Ascii.eqb_eq in H. subst a. exists s. reflexivity.
Qed.

(** The test of line 187 is the hidden-entry convention. *)
Lemma hiddenElem_hiddenName (elem : string) :
  hiddenElem elem = true -> hiddenName elem.
Proof.
  unfold hiddenElem, hiddenName. rewrite !orb_true_iff.
  intros [[[H | H] | H] | H];
    try (apply byteIs_get0 in H; tauto).
  right; right; right.
  destruct (String.get (String.length elem - 1) elem) as [b |] eqn:G;
    [| discriminate].
  cbn in H. apply Ascii.eqb_eq in H. subst b. apply last_byte. exact G.
Qed.

Lemma not_hidden_elem (path : string) :
  ~ hiddenName (snd (Split path)) ->
  negb (snd (Split path) =? "")%string && hiddenElem (snd (Split path)) = false.
Proof.
  intros Hn. destruct (hiddenElem (snd (Split path))) eqn:H.
  - exfalso. apply Hn, hiddenElem_hiddenName, H.
  - apply andb_false_r.
Qed.

(** ** The walk callback, case by case *)

Lemma ModeType_covers_ModeDir (m : Z) :
  Z.land m ModeType = 0%Z -> Z.land m ModeDir = 0%Z.
Proof.
  intros H.
  replace ModeDir with (Z.land ModeType ModeDir) by reflexivity.
  rewrite Z.land_assoc, H. reflexivity.
Qed.

Lemma ModeType_bits (m b : Z) :
  Z.land m ModeType = 0%Z -> In b typeBits -> Z.testbit m b = false.
Proof.
  intros H Hb.
  assert (Hbit : Z.testbit (Z.land m ModeType) b = false)
    by (rewrite H; apply Z.bits_0).
  rewrite Z.land_spec in Hbit.
  assert (Ht : Z.testbit ModeType b = true).
  { cbn in Hb.
    repeat (destruct Hb as [<- | Hb]; [reflexivity |]). destruct Hb. }
  rewrite Ht, andb_true_r in Hbit. exact Hbit.
Qed.

Lemma anyRegexpMatches_true_iff (excludeRegexp : list Regexp) (p : string) :
  anyRegexpMatches excludeRegexp p = true <->
  exists r, In r excludeRegexp /\ (MatchString r p true true > 0)%Z.
Proof.
  induction excludeRegexp as [| r rest IH]; cbn [anyRegexpMatches].
  - split; [discriminate | intros (r & [] & _)].
  - destruct (MatchString r p true true >? 0)%Z eqn:E.
    + split; [| reflexivity]. intros _. exists r.
      split; [left; reflexivity | apply Z.gtb_gt, E].
    + rewrite IH. split.
      * intros (r' & Hin & Hm). exists r'. split; [right; exact Hin | exact Hm].
      * intros (r' & [<- | Hin] & Hm).
        -- apply Z.gtb_gt in Hm. congruence.
        -- exists r'. split; assumption.
Qed.

(** X4.  Whatever the callback is called with, it adds a file only under
    the path it was called with, only when there is no traversal error, and
    only for an entry that is not a directory, has none of the type bits of
    [os.ModeType] set (no symlink, device, pipe, socket, ...) and whose
    final component is not hidden. *)
Theorem callback_adds_only_regular_files
    (excludeRegexp : list Regexp) (verbose : bool)
    (path : string) (info : option FileInfo) (err : error) (p : string) :
  In (EvAddFile p) (trace (walkFn excludeRegexp verbose path info err)) ->
  p = path /\ err = None /\ ~ hiddenName (snd (Split path)) /\
  exists fi,
    info = Some fi /\ IsDir fi = false /\
    forall b, In b typeBits -> Z.testbit (Mode fi) b = false.
Proof.
  unfold walkFn, info_IsDir, log_Printf.
  generalize (snd (Split path)). intros elem.
  destruct info as [fi |]; [| intros []].
  rewrite bind_ret.
  destruct (IsDir fi && anyRegexpMatches excludeRegexp path) eqn:Hrule.
  { destruct verbose; cbn; intuition discriminate. }
  destruct (negb (elem =? "")%string && hiddenElem elem) eqn:Hh.
  { rewrite bind_ret. destruct (IsDir fi); intros []. }
  destruct err as [e |]; [cbn; intuition discriminate |].
  destruct (Z.land (Mode fi) ModeType =? 0)%Z eqn:Hm; [| intros []].
  apply Z.eqb_eq in Hm. cbn. intros [[= <-] | []].
  split; [reflexivity |]. split; [reflexivity |]. split.
  - intros Hn. apply hiddenName_hiddenElem in Hn. destruct Hn as [Hne Hhe].
    apply String.eqb_neq in Hne. rewrite Hne, Hhe in Hh. discriminate.
  - exists fi. split; [reflexivity |]. split.
    + unfold IsDir. rewrite (ModeType_covers_ModeDir _ Hm). reflexivity.
    + intros b Hb. apply (ModeType_bits _ _ Hm Hb).
Qed.

Lemma callback_adds_only_regular_files_witness :
  Z.testbit (Mode regularFile) 27 = false.
Proof.
  assert (Hin : In (EvAddFile "/home/u/src/main.go")
                   (trace (walkFn [] false "/home/u/src/main.go"
                             (Some regularFile) None)))
    by (vm_compute; intuition).
  destruct (callback_adds_only_regular_files _ _ _ _ _ _ Hin)
    as (_ & _ & _ & fi & [= <-] & _ & Hbits).
  apply Hbits. vm_compute. intuition.
Defined.

(** X5.  The patterns and the verbosity play no part for an entry that is
    not a directory.  Such an entry, when its final component is not
    hidden, is logged and left out if the traversal reported an error, is
    added if it is a regular file, and is left out silently otherwise. *)
Theorem files_bypass_patterns
    (excludeRegexp : list Regexp) (verbose : bool)
    (path : string) (fi : FileInfo) (err : error) :
  IsDir fi = false ->
  walkFn excludeRegexp verbose path (Some fi) err =
    walkFn [] false path (Some fi) err /\
  (~ hiddenName (snd (Split path)) ->
   walkFn excludeRegexp verbose path (Some fi) err =
   match err with
   | Some e => ([EvLog (path ++ ": " ++ e)], Ok WalkNil)
   | None =>
       if (Z.land (Mode fi) ModeType =? 0)%Z
       then ([EvAddFile path], Ok WalkNil)
       else ([], Ok WalkNil)
   end).
Proof.
  intros Hd. unfold walkFn, info_IsDir. rewrite !bind_ret, Hd. cbn [andb].
  split; [reflexivity |].
  intros Hn. rewrite (not_hidden_elem path Hn).
  destruct err; [reflexivity |].
  destruct (Z.land (Mode fi) ModeType =? 0)%Z; reflexivity.
Qed.

Lemma files_bypass_patterns_witness :
  walkFn [literalRegexp "/venv"] true "/home/u/venv" (Some regularFile) None =
  ([EvAddFile "/home/u/venv"], Ok WalkNil).
Proof.
  refine (proj2 (files_bypass_patterns [literalRegexp "/venv"] true
                   "/home/u/venv" regularFile None eq_refl) _).
  intros Hh. apply hiddenName_hiddenElem in Hh. destruct Hh as [_ Hh].
  vm_compute in Hh. discriminate Hh.
Defined.

(** X6.  A directory whose full path is matched by one of the compiled
    patterns is answered with [SkipDir] before its name and the traversal
    error are looked at; nothing but the verbose log line is done.  Adding
    patterns cannot undo this. *)
Theorem matched_directory_pruned
    (excludeRegexp more : list Regexp) (verbose : bool)
    (path : string) (fi : FileInfo) (err : error) :
  IsDir fi = true ->
  (exists r, In r excludeRegexp /\ (MatchString r path true true > 0)%Z) ->
  walkFn (excludeRegexp ++ more) verbose path (Some fi) err =
  (if verbose
   then [EvLog ("skipping dir (due to exclusion): " ++ path ++ nl)]
   else [], Ok SkipDir).
Proof.
  intros Hd (r & Hin & Hm).
  assert (Hany : anyRegexpMatches (excludeRegexp ++ more) path = true).
  { apply anyRegexpMatches_true_iff. exists r.
    split; [apply in_or_app; left; exact Hin | exact Hm]. }
  unfold walkFn, info_IsDir. rewrite bind_ret, Hd, Hany. cbn [andb].
  destruct verbose; reflexivity.
Qed.

Lemma matched_directory_pruned_witness :
  walkFn ([literalRegexp "/node_modules"] ++ []) false
    "/home/u/src/node_modules" (Some directory) None = ([], Ok SkipDir).
Proof.
  apply (matched_directory_pruned [literalRegexp "/node_modules"] [] false
           "/home/u/src/node_modules" directory None eq_refl).
  exists (literalRegexp "/node_modules").
  split; [left; reflexivity | reflexivity].
Defined.

(** ** Walking a tree *)

Lemma in_trace_bind {A B} (m : M A) (k : A -> M B) (e : Event) :
  In e (trace (bind m k)) ->
  In e (trace m) \/ exists a, outcome m = Ok a /\ In e (trace (k a)).
Proof.
  destruct (bind_cases m k) as [(a & Ha & E) | [(msg & _ & E) | (c & _ & E)]];
    rewrite E; cbn [trace fst]; [| tauto | tauto].
  intros H. apply in_app_or in H. destruct H as [H | H]; [tauto |].
  right. exists a. split; assumption.
Qed.

Lemma walkFn_skips_directory
    (excludeRegexp : list Regexp) (verbose : bool)
    (path : string) (fi : FileInfo) (err : error) :
  IsDir fi = true ->
  hiddenName (snd (Split path)) \/
  (exists r, In r excludeRegexp /\ (MatchString r path true true > 0)%Z) ->
  exists t,
    walkFn excludeRegexp verbose path (Some fi) err = (t, Ok SkipDir) /\
    Forall (fun ev => isLog ev = true) t.
Proof.
  intros Hd Hwhy. unfold walkFn, info_IsDir. rewrite bind_ret, Hd. cbn [andb].
  destruct (anyRegexpMatches excludeRegexp path) eqn:Hany.
  - destruct verbose; eexists; (split; [reflexivity |]); repeat constructor.
  - destruct Hwhy as [Hh | Hm].
    + apply hiddenName_hiddenElem in Hh. destruct Hh as [Hne Hhe].
      apply String.eqb_neq in Hne. rewrite Hne, Hhe. cbn [negb andb].
      rewrite ?bind_ret, ?Hd. exists []. split; [reflexivity | constructor].
    + apply anyRegexpMatches_true_iff in Hm. congruence.
Qed.

(** X7.  A directory that is hidden by its name or matched by a pattern is
    not entered: whatever lies below it, the walk of that directory does
    nothing but, at most, write log lines, and answers [SkipDir]. *)
Theorem skipped_directory_not_entered
    (excludeRegexp : list Regexp) (verbose : bool) (path name : string)
    (info : FileInfo) (readdir : error) (children : list Node) :
  IsDir info = true ->
  hiddenName (snd (Split path)) \/
  (exists r, In r excludeRegexp /\ (MatchString r path true true > 0)%Z) ->
  exists t,
    walk (walkFn excludeRegexp verbose) path
      (Stat name info readdir children) = (t, Ok SkipDir) /\
    Forall (fun ev => isLog ev = true) t.
Proof.
  intros Hd Hwhy.
  destruct (walkFn_skips_directory excludeRegexp verbose path info readdir
              Hd Hwhy) as (t & E & Ht).
  exists t. split; [| exact Ht].
  cbn [walk]. rewrite Hd, E. cbn [negb]. rewrite bind_Ok.
  destruct (isErr readdir); cbn; rewrite app_nil_r; reflexivity.
Qed.

Lemma skipped_directory_not_entered_witness :
  exists t,
    walk (walkFn [] false) "/home/u/src/.git"
      (Stat ".git" directory None
         [Stat "config" regularFile None []; NoStat "index.lock" "busy"]) =
    (t, Ok SkipDir) /\
    Forall (fun ev => isLog ev = true) t.
Proof.
  apply (skipped_directory_not_entered [] false "/home/u/src/.git" ".git"
           directory None _ eq_refl).
  left. left. exists "git". reflexivity.
Defined.

(** X8.  A directory that cannot be read (its [Lstat] worked, reading it
    failed) and that is neither hidden nor matched by a pattern costs one
    log line [path: err]; its children are not visited and the walk goes on
    with the entries that follow it in the parent directory. *)
Theorem unreadable_directory_skipped_siblings_walked
    (excludeRegexp : list Regexp) (verbose : bool) (path name : string)
    (info : FileInfo) (e : string) (children rest : list Node) :
  let fn := walkFn excludeRegexp verbose in
  let filename := Join path name in
  IsDir info = true ->
  ~ hiddenName (snd (Split filename)) ->
  anyRegexpMatches excludeRegexp filename = false ->
  walkNames fn (walk fn) path (Stat name info (Some e) children :: rest) =
  (EvLog (filename ++ ": " ++ e) :: trace (walkNames fn (walk fn) path rest),
   outcome (walkNames fn (walk fn) path rest)).
Proof.
  intros fn filename Hd Hn Hany.
  cbn [walkNames nodeName walk]. fold filename. rewrite Hd. cbn [negb].
  assert (E : fn filename (Some info) (Some e) =
              ([EvLog (filename ++ ": " ++ e)], Ok WalkNil)).
  { unfold fn, walkFn, info_IsDir.
    rewrite bind_ret, Hd, Hany, (not_hidden_elem filename Hn). reflexivity. }
  rewrite E. cbn [isErr]. rewrite bind_Ok. cbn [trace outcome fst snd ret app].
  rewrite bind_Ok. cbn [trace outcome fst snd app]. reflexivity.
Qed.

Lemma unreadable_directory_skipped_siblings_walked_witness :
  walkNames (walkFn [] false) (walk (walkFn [] false)) "/home/u/src"
    [ Stat "locked" directory (Some "permission denied")
        [Stat "secret.go" regularFile None []];
      Stat "main.go" regularFile None [] ] =
  ([ EvLog "/home/u/src/locked: permission denied";
     EvAddFile "/home/u/src/main.go" ], Ok WalkNil).
Proof.
  refine (unreadable_directory_skipped_siblings_walked [] false "/home/u/src"
            "locked" directory "permission denied"
            [Stat "secret.go" regularFile None []]
            [Stat "main.go" regularFile None []] eq_refl _ eq_refl).
  intros Hh. apply hiddenName_hiddenElem in Hh. destruct Hh as [_ Hh].
  vm_compute in Hh. discriminate Hh.
Defined.

(** Every file added while walking lies below the path the walk started
    from. *)
Lemma Join_extends (path name : string) :
  exists rest, Join path name = (path ++ rest)%string.
Proof.
  unfold Join. destruct (endsWithSep path).
  - exists name. reflexivity.
  - exists ("/" ++ name)%string. reflexivity.
Qed.

Section WalkBelow.

Variable excludeRegexp : list Regexp.
Variable verbose : bool.

Local Abbreviation fn := (walkFn excludeRegexp verbose).

Lemma walkFn_adds_own_path (path : string) (info : option FileInfo)
    (err : error) (p : string) :
  In (EvAddFile p) (trace (fn path info err)) -> p = path.
Proof.
  unfold walkFn, info_IsDir, log_Printf.
  destruct info as [fi |]; [| intros []].
  rewrite bind_ret.
  destruct (IsDir fi && anyRegexpMatches excludeRegexp path).
  { destruct verbose; cbn; intuition discriminate. }
  destruct (negb (snd (Split path) =? "")%string &&
            hiddenElem (snd (Split path))).
  { rewrite bind_ret. destruct (IsDir fi); intros []. }
  destruct err as [e |]; [cbn; intuition discriminate |].
  destruct (Z.land (Mode fi) ModeType =? 0)%Z; [| intros []].
  cbn. intros [[= <-] | []]. reflexivity.
Qed.

Lemma walkNames_adds_below (path : string) (names : list Node) (p : string) :
  Forall (addsBelow excludeRegexp verbose) names ->
  In (EvAddFile p) (trace (walkNames fn (walk fn) path names)) ->
  exists rest, p = (path ++ rest)%string.
Proof.
  induction 1 as [| c rest Hc _ IH]; cbn [walkNames]; [intros [] |].
  destruct (Join_extends path (nodeName c)) as (ext & Hext).
  destruct c as [name fileInfo readdir children | name e]; intros Hin;
    apply in_trace_bind in Hin; destruct Hin as [Hin | (a & _ & Hin)].
  - apply Hc in Hin. destruct Hin as (rest' & ->). rewrite Hext.
    exists (ext ++ rest')%string. apply app_assoc_string.
  - destruct a; [exact (IH Hin) |].
    destruct (negb (IsDir fileInfo)); [destruct Hin | exact (IH Hin)].
  - apply walkFn_adds_own_path in Hin. subst p. rewrite Hext.
    exists ext. reflexivity.
  - exact (IH Hin).
Qed.

Lemma walk_adds_below (n : Node) : addsBelow excludeRegexp verbose n.
Proof.
  induction n as [name info readdir children IH | name e]
    using Node_forall_ind; intros path p; cbn [walk].
  - destruct (negb (IsDir info)).
    + intros Hin. apply walkFn_adds_own_path in Hin. subst p.
      exists "". clear. induction path; cbn; congruence.
    + intros Hin. apply in_trace_bind in Hin.
      destruct Hin as [Hin | (err1 & _ & Hin)].
      * apply walkFn_adds_own_path in Hin. subst p.
        exists "". clear. induction path; cbn; congruence.
      * destruct (isErr readdir); [destruct Hin |].
        destruct err1; [| destruct Hin].
        apply (walkNames_adds_below path children p IH Hin).
  - intros Hin. apply walkFn_adds_own_path in Hin. subst p.
    exists "". clear. induction path; cbn; congruence.
Qed.

End WalkBelow.

(** ** What a walk does and when it returns *)

Section WalkEvents.

Variable excludeRegexp : list Regexp.
Variable verbose : bool.

Local Abbreviation fn := (walkFn excludeRegexp verbose).

Lemma walkFn_events (path : string) (info : option FileInfo) (err : error) :
  Forall (fun ev => isWalkEvent ev = true) (trace (fn path info err)).
Proof.
  unfold walkFn, info_IsDir, log_Printf.
  destruct info as [fi |]; [| constructor].
  rewrite bind_ret.
  destruct (IsDir fi && anyRegexpMatches excludeRegexp path).
  { destruct verbose; repeat constructor. }
  destruct (negb (snd (Split path) =? "")%string &&
            hiddenElem (snd (Split path))).
  { rewrite bind_ret. destruct (IsDir fi); constructor. }
  destruct err as [e |]; [repeat constructor |].
  destruct (Z.land (Mode fi) ModeType =? 0)%Z; repeat constructor.
Qed.

Lemma walkNames_events (path : string) (names : list Node) :
  Forall (fun c => forall p,
            Forall (fun ev => isWalkEvent ev = true) (trace (walk fn p c)))
    names ->
  Forall (fun ev => isWalkEvent ev = true)
    (trace (walkNames fn (walk fn) path names)).
Proof.
  induction 1 as [| c rest Hc _ IH]; cbn [walkNames]; [constructor |].
  destruct c as [name fileInfo readdir children | name e];
    apply trace_bind_Forall.
  - apply Hc.
  - intros [|]; [exact IH |].
    destruct (negb (IsDir fileInfo)); [constructor | exact IH].
  - apply walkFn_events.
  - intros _. exact IH.
Qed.

Lemma walk_events (n : Node) :
  forall path,
    Forall (fun ev => isWalkEvent ev = true) (trace (walk fn path n)).
Proof.
  induction n as [name info readdir children IH | name e]
    using Node_forall_ind; intros path; cbn [walk]; [| apply walkFn_events].
  destruct (negb (IsDir info)); [apply walkFn_events |].
  apply trace_bind_Forall; [apply walkFn_events |]. intros err1.
  destruct (isErr readdir); [constructor |].
  destruct err1; [| constructor].
  apply walkNames_events. exact IH.
Qed.

Lemma walkNames_returns (path : string) (names : list Node) :
  Forall (fun c => allStat c = true ->
                   forall p, exists r, outcome (walk fn p c) = Ok r) names ->
  forallb allStat names = true ->
  exists r, outcome (walkNames fn (walk fn) path names) = Ok r.
Proof.
  induction 1 as [| c rest Hc _ IH]; cbn [walkNames forallb]; intros Hall.
  - exists WalkNil. reflexivity.
  - apply andb_true_iff in Hall. destruct Hall as [Hc1 Hrest].
    destruct c as [name fileInfo readdir children | name e];
      [| discriminate Hc1].
    destruct (Hc Hc1 (Join path (nodeName (Stat name fileInfo readdir children))))
      as (r & Hr).
    destruct (bind_cases
                (walk fn (Join path (nodeName (Stat name fileInfo readdir children)))
                   (Stat name fileInfo readdir children))
                (fun r0 => match r0 with
                           | WalkNil => walkNames fn (walk fn) path rest
                           | SkipDir =>
                               if negb (IsDir fileInfo) then ret SkipDir
                               else walkNames fn (walk fn) path rest
                           end))
      as [(a & Ha & E) | [(msg & Hm & _) | (c & Hc' & _)]]; try congruence.
    rewrite E. cbn [outcome snd].
    destruct a; [exact (IH Hrest) |].
    destruct (negb (IsDir fileInfo)); [eexists; reflexivity | exact (IH Hrest)].
Qed.

Lemma walk_returns (n : Node) :
  allStat n = true -> forall path, exists r, outcome (walk fn path n) = Ok r.
Proof.
  induction n as [name info readdir children IH | name e]
    using Node_forall_ind; [| discriminate].
  cbn [allStat]. intros Hall path. cbn [walk].
  destruct (negb (IsDir info)); [apply walkFn_returns |].
  destruct (walkFn_returns excludeRegexp verbose path info readdir)
    as (err1 & Herr1).
  destruct (bind_cases (fn path (Some info) readdir)
              (fun err1 =>
                 if isErr readdir then ret err1
                 else match err1 with
                      | WalkNil => walkNames fn (walk fn) path children
                      | SkipDir => ret SkipDir
                      end))
    as [(a & Ha & E) | [(msg & Hm & _) | (c & Hc' & _)]]; try congruence.
  rewrite E. cbn [outcome snd].
  destruct (isErr readdir); [eexists; reflexivity |].
  destruct a; [| eexists; reflexivity].
  apply walkNames_returns; assumption.
Qed.

End WalkEvents.

(** X9.  When every entry below the roots could be [Lstat]ed, the walks of
    all roots return (unreadable directories only cost a log line); they
    visit the roots in the order given, one [filepath.Walk] per root, and
    every file they add lies below the root being walked. *)
Theorem walks_return_in_root_order (w : World) (f : Flags)
    (excludeRegexp : list Regexp) (roots : list string) :
  (forall root, In root roots -> allStat (fs_tree w root) = true) ->
  outcome (walkRoots w f excludeRegexp roots) = Ok tt /\
  filter isWalk (trace (walkRoots w f excludeRegexp roots)) =
    map EvWalk roots /\
  (forall p, In (EvAddFile p) (trace (walkRoots w f excludeRegexp roots)) ->
     exists root rest, In root roots /\ p = (root ++ rest)%string).
Proof.
  induction roots as [| arg rest IH]; intros Hall; cbn [walkRoots map].
  - repeat split. intros p [].
  - destruct IH as (IHo & IHw & IHb);
      [intros root Hr; apply Hall; right; exact Hr |].
    destruct (walk_returns excludeRegexp (verboseFlag f) (fs_tree w arg)
                (Hall arg (or_introl eq_refl)) arg) as (r & Hr).
    pose proof (walk_events excludeRegexp (verboseFlag f) (fs_tree w arg) arg)
      as Hev.
    pose proof (walk_adds_below excludeRegexp (verboseFlag f) (fs_tree w arg)
                  arg) as Hbelow.
    unfold log_Printf, Walk.
    destruct (walk (walkFn excludeRegexp (verboseFlag f)) arg (fs_tree w arg))
      as [tw0 r0] eqn:Ewalk.
    cbn [outcome snd trace fst] in Hr, Hev, Hbelow. subst r0.
    rewrite !bind_emit. cbn [trace outcome fst snd].
    rewrite (bind_Ok tw0 r). cbn [trace outcome fst snd ret].
    rewrite app_nil_r. rewrite bind_Ok. cbn [trace outcome fst snd app].
    split; [exact IHo |]. split.
    + cbn [filter isWalk]. rewrite filter_app, IHw.
      replace (filter isWalk tw0) with (@nil Event); [reflexivity |].
      clear - Hev. induction Hev as [| ev t Hev _ IHt]; [reflexivity |].
      cbn [filter]. destruct ev; try discriminate Hev; exact IHt.
    + intros p [Hp | [Hp | Hp]]; try discriminate Hp.
      apply in_app_or in Hp. destruct Hp as [Hp | Hp].
      * destruct (Hbelow p) as (ext & ->).
        { exact Hp. }
        exists arg, ext. split; [left; reflexivity | reflexivity].
      * destruct (IHb p Hp) as (root & ext & Hin & ->).
        exists root, ext. split; [right; exact Hin | reflexivity].
Qed.

Lemma walks_return_in_root_order_witness :
  outcome (walkRoots healthyWorld (plainFlags ["src"]) [] ["/home/u/src"]) =
    Ok tt /\
  filter isWalk
    (trace (walkRoots healthyWorld (plainFlags ["src"]) [] ["/home/u/src"])) =
    [EvWalk "/home/u/src"].
Proof.
  assert (Hall : forall root, In root ["/home/u/src"] ->
                   allStat (fs_tree healthyWorld root) = true)
    by (intros root [<- | []]; reflexivity).
  destruct (walks_return_in_root_order healthyWorld (plainFlags ["src"]) []
              ["/home/u/src"] Hall) as (Hout & Hwalks & _).
  split; [exact Hout | exact Hwalks].
Defined.

(** ** Whole runs *)

Lemma prints_harmless (paths : list string) :
  Forall (fun ev => mutated ev = [] /\ isProfiling ev = false /\
                    isStat ev = false)
    (map (fun arg => EvPrint (arg ++ nl)) paths).
Proof. induction paths; constructor; [repeat split | assumption]. Qed.

(** X10.  A [-list] run looks at no other flag and at no argument: it opens
    the master index, prints the recorded paths one per line in the recorded
    order and returns; when the open aborts, nothing is printed.  It never
    profiles, never stats the master and changes no file. *)
Theorem list_run_only_prints (w : World) (f : Flags) :
  listFlag f = true ->
  main w f =
    match index_Open w (index_File w) with
    | Some paths =>
        (EvIndexOpen (index_File w) true ::
           map (fun arg => EvPrint (arg ++ nl)) paths, Ok tt)
    | None => ([EvIndexOpen (index_File w) false], Exit 1)
    end /\
  Forall (fun ev => mutated ev = [] /\ isProfiling ev = false /\
                    isStat ev = false)
    (trace (main w f)).
Proof.
  intros Hl.
  assert (E : main w f =
              match index_Open w (index_File w) with
              | Some paths =>
                  (EvIndexOpen (index_File w) true ::
                     map (fun arg => EvPrint (arg ++ nl)) paths, Ok tt)
              | None => ([EvIndexOpen (index_File w) false], Exit 1)
              end).
  { unfold main. rewrite Hl. unfold listPaths, indexOpenPaths.
    destruct (index_Open w (index_File w)) as [paths |]; [| reflexivity].
    rewrite bind_assoc, bind_emit, bind_ret, printPaths_eq. reflexivity. }
  split; [exact E |]. rewrite E.
  destruct (index_Open w (index_File w)) as [paths |]; cbn [trace fst].
  - constructor; [repeat split | apply prints_harmless].
  - repeat constructor.
Qed.

Lemma list_run_only_prints_witness :
  main healthyWorld
    {| listFlag := true; resetFlag := true; verboseFlag := true;
       cpuProfile := "/tmp/cindex.prof"; excludeFlag := ["("];
       args := ["docs"] |} =
  ([EvIndexOpen "/home/u/.csearchindex" true; EvPrint ("/home/u/src" ++ nl)],
   Ok tt).
Proof.
  exact (proj1 (list_run_only_prints healthyWorld
                  {| listFlag := true; resetFlag := true; verboseFlag := true;
                     cpuProfile := "/tmp/cindex.prof"; excludeFlag := ["("];
                     args := ["docs"] |} eq_refl)).
Defined.

(** X11.  [-reset] without paths removes the master and returns: whatever
    [os.Remove] answers, the run ends with status 0 (the answer is not
    looked at), and apart from the profiling around it the removal is the
    only thing the run does: no open, no stat, no pattern is compiled. *)
Theorem reset_without_paths_only_removes (w : World) (f : Flags) :
  listFlag f = false -> resetFlag f = true -> args f = [] ->
  cpuProfile f = "" \/ os_Create w (cpuProfile f) = None ->
  trace (main w f) =
    profPre f ++
    EvOsRemove (index_File w) (os_Remove w (index_File w)) ::
    profPost f (Ok tt) /\
  outcome (main w f) = Ok tt /\
  exitCode (outcome (main w f)) = 0%Z.
Proof.
  intros Hl Hr Ha Hp.
  destruct (main_profiled_eq w f Hl Hp) as [Et Eo].
  assert (E : afterProfile w f =
              ([EvOsRemove (index_File w) (os_Remove w (index_File w))],
               Ok tt)).
  { unfold afterProfile. rewrite Hr, Ha. reflexivity. }
  rewrite Et, Eo, E. cbn [trace outcome fst snd app exitCode].
  repeat split.
Qed.

Lemma reset_without_paths_only_removes_witness :
  main (exampleWorld false true true
          (Some "remove /home/u/.csearchindex: no such file or directory")
          None)
    (resetFlags []) =
  ([EvOsRemove "/home/u/.csearchindex"
      (Some "remove /home/u/.csearchindex: no such file or directory")],
   Ok tt).
Proof.
  destruct (reset_without_paths_only_removes
              (exampleWorld false true true
                 (Some "remove /home/u/.csearchindex: no such file or directory")
                 None)
              (resetFlags []) eq_refl eq_refl eq_refl (or_introl eq_refl))
    as (Et & Eo & _).
  apply injective_projections; [exact Et | exact Eo].
Defined.

(** Lines 115-137 with paths on the command line. *)
Lemma afterProfile_given (w : World) (f : Flags) :
  args f <> [] ->
  afterProfile w f =
    (flat_map (absEvents w) (args f) ++
       trace (build w f (dropEmpty (sort_Strings (map (absResult w) (args f))))),
     outcome (build w f (dropEmpty (sort_Strings (map (absResult w) (args f)))))).
Proof.
  intros Ha. unfold afterProfile.
  destruct (args f) as [| a0 rest] eqn:Eargs; [congruence |].
  cbn [List.length Nat.eqb]. rewrite andb_false_r, bind_ret.
  rewrite resolveArgs_eq, bind_Ok. cbn [trace outcome fst snd]. reflexivity.
Qed.

Lemma walkRoots_returns (w : World) (f : Flags) (excludeRegexp : list Regexp)
    (roots : list string) :
  (forall root, In root roots -> allStat (fs_tree w root) = true) ->
  outcome (walkRoots w f excludeRegexp roots) = Ok tt.
Proof.
  induction roots as [| arg rest IH]; intros Hall; cbn [walkRoots];
    [reflexivity |].
  destruct (walk_returns excludeRegexp (verboseFlag f) (fs_tree w arg)
              (Hall arg (or_introl eq_refl)) arg) as (r & Hr).
  unfold log_Printf, Walk.
  destruct (walk (walkFn excludeRegexp (verboseFlag f)) arg (fs_tree w arg))
    as [tw0 r0].
  cbn [outcome snd] in Hr. subst r0.
  rewrite !bind_emit. cbn [trace outcome fst snd].
  rewrite (bind_Ok tw0 r). cbn [trace outcome fst snd ret].
  rewrite bind_Ok. cbn [trace outcome fst snd].
  apply IH. intros root Hin. apply Hall. right. exact Hin.
Qed.

(** A build in which every step works stops at [Done]. *)
Lemma build_done (w : World) (f : Flags) (roots : list string)
    (rs : list Regexp) :
  outcome (compilePatterns w (excludePatterns f)) = Ok rs ->
  index_Create w (stagingPath w f) = true ->
  outcome (walkRoots w f rs roots) = Ok tt ->
  index_Flush w (stagingPath w f) = true ->
  (resetMode w f = false ->
   index_Merge w (stagingPath w f ++ "~") (index_File w) (stagingPath w f) =
     true) ->
  build w f roots =
    (buildEvents w f roots (trace (compilePatterns w (excludePatterns f)))
       (trace (walkRoots w f rs roots)) Done,
     Ok tt).
Proof.
  intros Hc Hcreate Hw Hflush Hmerge.
  unfold build. cbv zeta. rewrite bind_emit.
  destruct (compilePatterns w (excludePatterns f)) as [tc rc] eqn:Ec.
  cbn [trace outcome fst snd] in *. subst rc.
  rewrite bind_Ok. unfold indexCreate. rewrite Hcreate.
  rewrite bind_assoc, bind_emit, bind_ret. cbn [trace outcome fst snd].
  rewrite bind_emit. cbn [trace outcome fst snd].
  destruct (walkRoots w f rs roots) as [tw rw] eqn:Ew.
  cbn [trace outcome fst snd] in *. subst rw.
  rewrite bind_Ok. unfold log_Printf at 1. rewrite bind_emit.
  unfold indexFlush. cbn [ix_file]. rewrite Hflush.
  rewrite bind_emit. cbn [trace outcome fst snd].
  unfold buildEvents, flushedEvents, createdEvents, statEvents, publishEvents.
  destruct (resetMode w f) eqn:Ereset; cbn [negb].
  - cbn. rewrite <- !app_assoc. reflexivity.
  - rewrite mergePublish_shape, (Hmerge eq_refl).
    cbn. rewrite <- !app_assoc. reflexivity.
Qed.

(** X12.  When paths are given, every pattern compiles, every entry below
    the resolved roots can be [Lstat]ed, and creating, flushing and (in
    incremental mode) merging the index work, the run goes through all of
    its steps: it ends with status 0, and between the start and the stop of
    profiling it resolves the paths, checks the master, compiles the
    patterns, creates the writer, records the roots, walks them, flushes,
    merges and publishes in incremental mode, and logs [done] last. *)
Theorem healthy_run_is_done (w : World) (f : Flags) :
  listFlag f = false -> args f <> [] ->
  cpuProfile f = "" \/ os_Create w (cpuProfile f) = None ->
  (forall p, In p (excludePatterns f) -> exists r, regexp_Compile w p = inl r) ->
  (forall root,
     In root (dropEmpty (sort_Strings (map (absResult w) (args f)))) ->
     allStat (fs_tree w root) = true) ->
  index_Create w (stagingPath w f) = true ->
  index_Flush w (stagingPath w f) = true ->
  (resetMode w f = false ->
   index_Merge w (stagingPath w f ++ "~") (index_File w) (stagingPath w f) =
     true) ->
  outcome (main w f) = Ok tt /\
  exists rs,
    outcome (compilePatterns w (excludePatterns f)) = Ok rs /\
    trace (main w f) =
      profPre f ++
      (flat_map (absEvents w) (args f) ++
       buildEvents w f (dropEmpty (sort_Strings (map (absResult w) (args f))))
         (trace (compilePatterns w (excludePatterns f)))
         (trace (walkRoots w f rs
                   (dropEmpty (sort_Strings (map (absResult w) (args f))))))
         Done) ++
      profPost f (Ok tt).
Proof.
  intros Hl Ha Hp Hpat Htree Hcreate Hflush Hmerge.
  destruct (compilePatterns_all_good w (excludePatterns f) Hpat) as [rs Hrs].
  destruct (main_profiled_eq w f Hl Hp) as [Et Eo].
  pose proof (build_done w f _ rs Hrs Hcreate
                (walkRoots_returns w f rs _ Htree) Hflush Hmerge) as Eb.
  rewrite Et, Eo, (afterProfile_given w f Ha), Eb.
  cbn [trace outcome fst snd]. split; [reflexivity |].
  exists rs. split; [exact Hrs | reflexivity].
Qed.

Lemma healthy_run_is_done_witness :
  outcome (main healthyWorld (plainFlags ["src"])) = Ok tt /\
  outcome (main freshWorld (profileFlags false ["src"])) = Ok tt.
Proof.
  assert (Hpat : forall p, In p (excludePatterns (plainFlags ["src"])) ->
                   exists r, regexp_Compile healthyWorld p = inl r).
  { intros p Hin. cbn in Hin.
    repeat (destruct Hin as [<- | Hin]; [eexists; reflexivity |]).
    destruct Hin. }
  assert (Htree : forall root, In root ["/home/u/src"] ->
                    allStat (exampleTree root) = true)
    by (intros root [<- | []]; reflexivity).
  split.
  - exact (proj1 (healthy_run_is_done healthyWorld (plainFlags ["src"])
                    eq_refl ltac:(discriminate) (or_introl eq_refl)
                    Hpat Htree eq_refl eq_refl (fun _ => eq_refl))).
  - exact (proj1 (healthy_run_is_done freshWorld (profileFlags false ["src"])
                    eq_refl ltac:(discriminate) (or_intror eq_refl)
                    Hpat Htree eq_refl eq_refl (fun _ => eq_refl))).
Defined.
